(** * People tracking counter: the frame-processing pipeline of [tracker.py]

    A shallow embedding of [fix_video_codec], [get_detections],
    [draw_tracking_info], [process_video] and [process_camera].

    Conventions of the embedding:
    - Python floats (confidences, frame rates, box corners) are the
      rationals they denote ([Q]); [int(x)] truncates toward zero.
    - The detection model, the tracker and the [ffmpeg] subprocess are
      external collaborators: they are variables of the section, and each
      of them may raise.
    - The disk, the handles held open and the subprocess invocations live
      in a [World] that survives an exception, as the process state does.
    - Console output ([print]) is not modelled. *)

From Stdlib Require Import QArith Qround Lqa.
From stdpp Require Import gmap strings list fin_maps.

Local Open Scope Z_scope.
#[local] Set Warnings "-clear-no-such-hyp".
Set Default Proof Using "Type".

(** ** Numbers *)

(** [int(x)] on a float: truncation toward zero. *)
Definition py_int (x : Q) : Z := Z.quot (Qnum x) (Zpos (Qden x)).

(** [a > b] on floats. *)
Definition Qgtb (a b : Q) : bool := negb (Qle_bool a b).

(** [a == 0] on a float. *)
Definition Qis_zero (a : Q) : bool := Qeq_bool a 0%Q.

(** ** Strings: [str.replace] *)

Fixpoint is_prefix (p s : string) : bool :=
  match p, s with
  | EmptyString, _ => true
  | String a p', String b s' => if Ascii.eqb a b then is_prefix p' s' else false
  | String _ _, EmptyString => false
  end.

(** [s.replace(old, new)] for a non-empty [old]: occurrences are replaced
    from left to right and do not overlap; [skip] counts the characters of
    a matched occurrence still to be dropped. *)
Fixpoint replace_from (old new : string) (skip : nat) (s : string) : string :=
  match s with
  | EmptyString => EmptyString
  | String c s' =>
      match skip with
      | S k => replace_from old new k s'
      | O =>
          if is_prefix old s
          then String.app new (replace_from old new (String.length old - 1) s')
          else String c (replace_from old new 0 s')
      end
  end.

Definition str_replace (s old new : string) : string := replace_from old new 0 s.

(** ** Data model *)

(** One element of [results.boxes]: class index, confidence, corners. *)
Record Box := mkBox {
  box_cls : Z;
  box_conf : Q;
  box_xyxy : Q * Q * Q * Q
}.

(** What [get_detections] appends: [([x1, y1, w, h], conf, "person")]. *)
Record Detection := mkDetection {
  det_xywh : Z * Z * Z * Z;
  det_conf : Q;
  det_class : string
}.

(** Class index 0 of the model is the person class. *)
Definition person_cls : Z := 0.

Inductive TrackState := Tentative | Confirmed | Deleted.

(** A track as the pipeline reads it: [track_id], [is_confirmed()] and
    [to_ltrb(orig=True)], which may be [None]. *)
Record Track := mkTrack {
  track_id : Z;
  track_state : TrackState;
  to_ltrb : option (Q * Q * Q * Q)
}.

Definition is_confirmed (t : Track) : bool :=
  match track_state t with Confirmed => true | _ => false end.

(** ** Detector adapter: the loop of [get_detections] over [results.boxes] *)

Definition to_detection (b : Box) : Detection :=
  let '(x1, y1, x2, y2) := box_xyxy b in
  let '(x1, y1, x2, y2) := (py_int x1, py_int y1, py_int x2, py_int y2) in
  let '(w, h) := (x2 - x1, y2 - y1) in
  mkDetection (x1, y1, w, h) (box_conf b) "person".

Definition keeps (confidence_threshold : Q) (b : Box) : bool :=
  (box_cls b =? person_cls) && Qgtb (box_conf b) confidence_threshold.

Definition filter_boxes (confidence_threshold : Q) (boxes : list Box) : list Detection :=
  foldl (fun detections box =>
           if keeps confidence_threshold box
           then detections ++ [to_detection box]
           else detections) [] boxes.

(** ** Frames and drawing *)

(** Pixel rows of a BGR image. *)
Definition Image : Type := list (list (Z * Z * Z)).

(** What the annotator draws with [cv2.rectangle] and [cv2.putText]. *)
Inductive DrawOp :=
| Rectangle (x1 y1 x2 y2 : Z)
| TextID (id : Z) (x y : Z)            (* f'ID: {track_id}' at (x, y) *)
| TextPeopleCount (n : nat)            (* f'People Count: {n}' at (20, 40) *)
| TextTotalUnique (n : nat).           (* f'Total Unique: {n}' at (20, 80) *)

(** A frame: its pixels and what has been drawn over them, oldest first. *)
Record Frame := mkFrame {
  pixels : Image;
  drawn : list DrawOp
}.

Definition draw (frame : Frame) (op : DrawOp) : Frame :=
  mkFrame (pixels frame) (drawn frame ++ [op]).

(** ** Errors *)

Inductive exn :=
| FailedToOpenVideoFile                  (* Exception("Failed to open video file") *)
| FailedToOpenCamera (camera_index : Z)  (* Exception(f"Failed to open camera with index {i}") *)
| CalledProcessError (returncode : Z)    (* subprocess.run(..., check=True), non-zero exit *)
| FileNotFoundError                      (* subprocess.run: no ffmpeg binary *)
| CollaboratorError (msg : string).      (* raised inside the detector or the tracker *)

(** The spec's error taxonomy over the exceptions of the code. *)
Definition SourceUnavailable (e : exn) : bool :=
  match e with FailedToOpenVideoFile | FailedToOpenCamera _ => true | _ => false end.

Definition TranscodeFailure (e : exn) : bool :=
  match e with CalledProcessError _ | FileNotFoundError => true | _ => false end.

(** ** The world: disk, camera devices, open handles, subprocess runs *)

Record VideoFile := mkVideoFile {
  vf_opens : bool;            (* the container can be opened *)
  vf_frames : list Frame;     (* the frames a decoder delivers *)
  vf_width : Z;
  vf_height : Z;
  vf_fps : Q
}.

Record Camera := mkCamera {
  cam_feed : nat -> option Frame;   (* outcome of the k-th [read()], [None]: ret is False *)
  cam_width : Z;
  cam_height : Z;
  cam_fps : Q
}.

Inductive Target := File (path : string) | Device (index : Z).

Global Instance Target_eq_dec : EqDecision Target.
Proof. solve_decision. Defined.

Record World := mkWorld {
  fs : gmap string VideoFile;
  cameras : gmap Z Camera;
  open_caps : list Target;            (* capture handles opened and not released *)
  open_writers : list string;         (* writer handles opened and not released *)
  ffmpeg_runs : list (string * string) (* (input, output) of each ffmpeg invocation, latest first *)
}.

Definition set_fs (f : gmap string VideoFile -> gmap string VideoFile) (w : World) : World :=
  mkWorld (f (fs w)) (cameras w) (open_caps w) (open_writers w) (ffmpeg_runs w).
Definition set_open_caps (f : list Target -> list Target) (w : World) : World :=
  mkWorld (fs w) (cameras w) (f (open_caps w)) (open_writers w) (ffmpeg_runs w).
Definition set_open_writers (f : list string -> list string) (w : World) : World :=
  mkWorld (fs w) (cameras w) (open_caps w) (f (open_writers w)) (ffmpeg_runs w).
Definition log_ffmpeg (i o : string) (w : World) : World :=
  mkWorld (fs w) (cameras w) (open_caps w) (open_writers w) ((i, o) :: ffmpeg_runs w).

(** Drops the first occurrence of [x]. *)
Fixpoint remove_first {A} `{EqDecision A} (x : A) (l : list A) : list A :=
  match l with
  | [] => []
  | y :: l' => if decide (x = y) then l' else y :: remove_first x l'
  end.

(** ** Computations that change the world and may raise *)

Definition M (A : Type) : Type := World -> (exn + A) * World.

Global Instance M_ret : MRet M := fun A a w => (inr a, w).
Global Instance M_bind : MBind M := fun A B f m w =>
  match m w with
  | (inl e, w') => (inl e, w')
  | (inr a, w') => f a w'
  end.

Definition raise {A} (e : exn) : M A := fun w => (inl e, w).

Definition lift {A} (r : exn + A) : M A := fun w => (r, w).

Definition modify (f : World -> World) : M unit := fun w => (inr tt, f w).

(** ** Capture and writer handles *)

(** A [cv2.VideoCapture]; [F] is what it reads from. *)
Record VideoCapture (F : Type) := mkCap {
  cap_target : Target;
  isOpened : bool;
  cap_width : Z;
  cap_height : Z;
  cap_fps : Q;
  cap_feed : F
}.
Arguments mkCap {F}.
Arguments cap_target {F}.
Arguments isOpened {F}.
Arguments cap_width {F}.
Arguments cap_height {F}.
Arguments cap_fps {F}.
Arguments cap_feed {F}.

(** [cv2.VideoCapture(path)]: a missing or unopenable file gives a handle
    that is not opened and reads nothing; an opened handle delivers the
    frames the file holds when it is opened. *)
Definition VideoCapture_path (path : string) : M (VideoCapture (list Frame)) := fun w =>
  match fs w !! path with
  | Some vf =>
      if vf_opens vf
      then (inr (mkCap (File path) true (vf_width vf) (vf_height vf) (vf_fps vf) (vf_frames vf)),
            set_open_caps (cons (File path)) w)
      else (inr (mkCap (File path) false 0 0 0%Q []), w)
  | None => (inr (mkCap (File path) false 0 0 0%Q []), w)
  end.

(** [cv2.VideoCapture(camera_index)]. *)
Definition VideoCapture_index (index : Z) : M (VideoCapture (nat -> option Frame)) := fun w =>
  match cameras w !! index with
  | Some cam =>
      (inr (mkCap (Device index) true (cam_width cam) (cam_height cam) (cam_fps cam) (cam_feed cam)),
       set_open_caps (cons (Device index)) w)
  | None => (inr (mkCap (Device index) false 0 0 0%Q (fun _ => None)), w)
  end.

(** [cap.release()]: a handle that never opened has nothing to release. *)
Definition cap_release {F} (cap : VideoCapture F) : M unit :=
  if isOpened cap then modify (set_open_caps (remove_first (cap_target cap)))
  else mret tt.

Record VideoWriter := mkWriter { vw_path : string }.

(** [cv2.VideoWriter(path, fourcc, fps, (width, height))] creates the file. *)
Definition VideoWriter_open (path : string) (fps : Q) (size : Z * Z) : M VideoWriter :=
  fun w =>
    (inr (mkWriter path),
     set_open_writers (cons path)
       (set_fs (insert path (mkVideoFile true [] (fst size) (snd size) fps)) w)).

Definition append_frame (frame : Frame) (vf : VideoFile) : VideoFile :=
  mkVideoFile (vf_opens vf) (vf_frames vf ++ [frame]) (vf_width vf) (vf_height vf) (vf_fps vf).

(** [out.write(frame)]. *)
Definition writer_write (out : VideoWriter) (frame : Frame) : M unit :=
  modify (set_fs (alter (append_frame frame) (vw_path out))).

Definition writer_release (out : VideoWriter) : M unit :=
  modify (set_open_writers (remove_first (vw_path out))).

(** [if os.path.exists(p): os.remove(p)]. *)
Definition remove_if_exists (p : string) : M unit :=
  modify (set_fs (delete p)).

(** ** Observations used to state the properties *)

(** The first frame of [path] can be decoded. *)
Definition readable (w : World) (path : string) : bool :=
  match fs w !! path with
  | Some vf => vf_opens vf && match vf_frames vf with [] => false | _ :: _ => true end
  | None => false
  end.

(** [path] cannot be opened on [disk]. *)
Definition cannot_open (disk : gmap string VideoFile) (path : string) : bool :=
  match disk !! path with
  | Some vf => negb (vf_opens vf)
  | None => true
  end.

(** The frames a device delivers from its read number [pos] on, to at most
    [n] reads, up to its first failed read. *)
Fixpoint camera_frames (feed : nat -> option Frame) (pos n : nat) : list Frame :=
  match n with
  | O => []
  | S n =>
      match feed pos with
      | None => []
      | Some frame => frame :: camera_frames feed (S pos) n
      end
  end.

(** The value of the latest "People Count" text on a frame. *)
Definition rendered_people_count (frame : Frame) : option nat :=
  last (omap (fun op => match op with TextPeopleCount n => Some n | _ => None end)
          (drawn frame)).

(** Identities of the confirmed tracks of a tracker output. *)
Definition confirmed_ids (tracks : list Track) : gset Z :=
  list_to_set (track_id <$> filter (fun t => is_confirmed t = true) tracks).

(** The rectangle and label [draw_tracking_info] draws for one track. *)
Definition box_ops (t : Track) : list DrawOp :=
  match to_ltrb t with
  | Some (l, t', r, b) =>
      [Rectangle (py_int l) (py_int t') (py_int r) (py_int b);
       TextID (track_id t) (py_int l) (py_int t' - 10)]
  | None => []
  end.

(** Two worlds with the same open handles, devices and subprocess log. *)
Definition same_handles (w w' : World) : Prop :=
  open_caps w' = open_caps w /\ open_writers w' = open_writers w /\
  ffmpeg_runs w' = ffmpeg_runs w /\ cameras w' = cameras w.

(** The world in which the frame loop of a run starts: the capture on
    [target] is open and the writer has created [output_path]. *)
Definition loop_start (target : Target) (output_path : string)
    (width height : Z) (fps : Q) (w : World) : World :=
  set_open_writers (cons output_path)
    (set_fs (insert output_path (mkVideoFile true [] width height fps))
       (set_open_caps (cons target) w)).

(** The world after the release calls that follow the frame loop. *)
Definition released (target : Target) (output_path : string) (w : World) : World :=
  set_open_writers (remove_first output_path)
    (set_open_caps (remove_first target) w).

(** The world after the clean-up that ends [process_video]. *)
Definition cleaned (input_path video_path output_path : string) (w : World) : World :=
  if decide (video_path = input_path)
  then released (File video_path) output_path w
  else set_fs (delete video_path) (released (File video_path) output_path w).

(** ** The API layer of [app.py]: paths, requests, responses *)

Definition UPLOAD_DIR : string := "uploads".
Definition OUTPUT_DIR : string := "outputs".

Definition allowed_extensions : list string := [".mp4"; ".avi"; ".mov"; ".mkv"].

(** The characters ['/'] and ['.']. *)
Definition slash : Ascii.ascii := Ascii.ascii_of_nat 47.
Definition dot : Ascii.ascii := Ascii.ascii_of_nat 46.

Fixpoint ends_with_slash (s : string) : bool :=
  match s with
  | EmptyString => false
  | String c EmptyString => Ascii.eqb c slash
  | String _ s' => ends_with_slash s'
  end.

(** [os.path.join(a, b)] on POSIX paths. *)
Definition os_path_join (a b : string) : string :=
  if is_prefix "/" b then b
  else if (String.length a =? 0)%nat || ends_with_slash a then a +:+ b
  else a +:+ "/" +:+ b.

(** [s.rfind(c)]: the index of the last [c] in [s], or -1. *)
Fixpoint rfind_from (c : Ascii.ascii) (i found : Z) (s : string) : Z :=
  match s with
  | EmptyString => found
  | String a s' => rfind_from c (i + 1) (if Ascii.eqb a c then i else found) s'
  end.

Definition rfind (s : string) (c : Ascii.ascii) : Z := rfind_from c 0 (-1) s.

(** The [while filenameIndex < dotIndex] loop of [os.path.splitext]: is
    there a character other than a dot before the last dot. *)
Fixpoint splitext_scan (p : string) (fuel : nat) (filenameIndex dotIndex : Z) : bool :=
  match fuel with
  | O => false
  | S fuel =>
      if filenameIndex <? dotIndex then
        match String.get (Z.to_nat filenameIndex) p with
        | Some c =>
            if negb (Ascii.eqb c dot) then true
            else splitext_scan p fuel (filenameIndex + 1) dotIndex
        | None => true
        end
      else false
  end.

(** [os.path.splitext(p)] on POSIX paths. *)
Definition splitext (p : string) : string * string :=
  let sepIndex := rfind p slash in
  let dotIndex := rfind p dot in
  if sepIndex <? dotIndex then
    if splitext_scan p (Z.to_nat (dotIndex - (sepIndex + 1))) (sepIndex + 1) dotIndex
    then (String.substring 0 (Z.to_nat dotIndex) p,
          String.substring (Z.to_nat dotIndex) (String.length p - Z.to_nat dotIndex) p)
    else (p, EmptyString)
  else (p, EmptyString).

(** The [detail] of an [HTTPException]. *)
Inductive Detail :=
| NoFileProvided                     (* "No file provided" *)
| InvalidFileFormat                  (* f"Invalid file format. Allowed: {allowed_extensions}" *)
| ProcessingError (e : exn)          (* f"Processing error: {str(e)}" *)
| CameraProcessingError (e : exn)    (* f"Camera processing error: {str(e)}" *)
| CameraResultKeyError (key : string) (* the same, for a key missing from the result *)
| FileNotFound.                      (* "File not found" *)

Record HTTPException := mkHTTP {
  status_code : Z;
  detail : Detail
}.

(** An uploaded file: its client-side name, if any, and its content. *)
Record UploadFile := mkUpload {
  filename : option string;
  file : VideoFile
}.

Record VideoResponse := mkVideoResponse {
  vr_success : bool;
  vr_message : string;
  vr_output_file : string;
  vr_total_unique_people : nat;
  vr_total_frames : Z;
  vr_download_url : string
}.

(** [models.CameraRequest] and the bounds of its fields. *)
Record CameraRequest := mkCameraRequest {
  req_camera_index : Z;
  req_duration_seconds : Z;
  req_confidence_threshold : Q
}.

Definition valid_camera_request (r : CameraRequest) : bool :=
  (0 <=? req_camera_index r)
  && (5 <=? req_duration_seconds r) && (req_duration_seconds r <=? 300)
  && Qle_bool (1 # 10) (req_confidence_threshold r)
  && Qle_bool (req_confidence_threshold r) 1.

Record CameraResponse := mkCameraResponse {
  cr_success : bool;
  cr_message : string;
  cr_output_file : string;
  cr_total_unique_people : nat;
  cr_total_frames : Z;
  cr_duration_seconds : Q;
  cr_download_url : string
}.

Record FileResponse := mkFileResponse {
  fr_path : string;
  fr_media_type : string;
  fr_filename : string
}.

(** [download_output(filename)]. *)
Definition download_output (name : string) (w : World) : (HTTPException + FileResponse) * World :=
  let file_path := os_path_join OUTPUT_DIR name in
  match fs w !! file_path with
  | None => (inl (mkHTTP 404 FileNotFound), w)
  | Some _ => (inr (mkFileResponse file_path "video/mp4" name), w)
  end.

(** [c] occurs in [s]. *)
Fixpoint has_char (c : Ascii.ascii) (s : string) : bool :=
  match s with
  | EmptyString => false
  | String a s' => Ascii.eqb a c || has_char c s'
  end.

(** [old] occurs in [s] as a substring. *)
Fixpoint occurs (old s : string) : bool :=
  is_prefix old s ||
  match s with
  | EmptyString => false
  | String _ s' => occurs old s'
  end.

(** The value of the latest "Total Unique" text on a frame. *)
Definition rendered_total_unique (frame : Frame) : option nat :=
  last (omap (fun op => match op with TextTotalUnique n => Some n | _ => None end)
          (drawn frame)).

(** ** Test doubles

    A detector, a tracker and an [ffmpeg] small enough to run the pipeline
    on concrete worlds. *)

Module Demo.

(** The detector reads its answer off the pixels: every non-empty pixel
    row [(cls, percent, x) :: _] is one box of class [cls] and confidence
    [percent / 100], kept within [0, 1], with its left edge at [x]; it
    raises on an image without rows. *)
Definition row_box (row : list (Z * Z * Z)) : option Box :=
  match row with
  | (cls, percent, x) :: _ =>
      Some (mkBox cls (Qmake (Z.max 0 (Z.min percent 100)) 100)
              (inject_Z x, 20%Q, inject_Z (x + 100), 220%Q))
  | [] => None
  end.

Definition predict (frame : Frame) : exn + list Box :=
  match pixels frame with
  | [] => inl (CollaboratorError "empty frame")
  | rows => inr (omap row_box rows)
  end.

(** The tracker follows one person at a time: [(id, hits)] is the identity
    of the current track and the number of frames it was detected in. The
    track is confirmed from its second detection on, and deleted, with
    its identity retired, at the first frame without a detection. *)
Definition update_tracks (s : Z * nat) (detections : list Detection) (frame : Frame)
    : exn + ((Z * nat) * list Track) :=
  let '(id, hits) := s in
  match detections with
  | [] =>
      match hits with
      | O => inr (s, [])
      | S _ => inr ((id + 1, O), [mkTrack id Deleted None])
      end
  | d :: _ =>
      let '(x, y, w, h) := det_xywh d in
      let ltrb := (inject_Z x, inject_Z y, inject_Z (x + w), inject_Z (y + h)) in
      inr ((id, S hits),
           [mkTrack id (if (2 <=? S hits)%nat then Confirmed else Tentative) (Some ltrb)])
  end.

Definition initialize_tracker : Z * nat := (1, O).

(** [ffmpeg] exits with status 1 when its input is missing, and else
    writes a copy that opens. *)
Definition ffmpeg (disk : gmap string VideoFile) (i o : string)
    : option (Z * gmap string VideoFile) :=
  match disk !! i with
  | None => Some (1, disk)
  | Some vf =>
      Some (0, <[o := mkVideoFile true (vf_frames vf) (vf_width vf) (vf_height vf)
                        (vf_fps vf)]> disk)
  end.

(** No [ffmpeg] binary on the machine. *)
Definition no_ffmpeg (disk : gmap string VideoFile) (i o : string)
    : option (Z * gmap string VideoFile) := None.

Definition person_frame : Frame := mkFrame [[(0, 90, 10)]] [].
Definition empty_frame : Frame := mkFrame [[]] [].
Definition broken_frame : Frame := mkFrame [] [].

Definition clip (frames : list Frame) : VideoFile := mkVideoFile true frames 640 480 25.
Definition unreadable_clip (frames : list Frame) : VideoFile :=
  mkVideoFile false frames 640 480 25.

Definition webcam (fps : Q) : Camera := mkCamera (fun _ => Some person_frame) 640 480 fps.

(** A webcam whose read number [n] fails. *)
Definition failing_webcam (n : nat) : Camera :=
  mkCamera (fun k => if (k <? n)%nat then Some person_frame else None) 640 480 30.

Definition world (disk : gmap string VideoFile) (cams : gmap Z Camera) : World :=
  mkWorld disk cams [] [] [].

(** One file on disk, no camera; camera 0 plugged in, empty disk. *)
Definition video_world (path : string) (vf : VideoFile) : World :=
  world {[ path := vf ]} ∅.
Definition camera_world (cam : Camera) : World := world ∅ {[ 0 := cam ]}.

End Demo.

Module DemoApi.

(** [str.lower()] on ASCII text. *)
Definition lower_ascii (c : Ascii.ascii) : Ascii.ascii :=
  let n := Ascii.nat_of_ascii c in
  if ((65 <=? n) && (n <=? 90))%nat then Ascii.ascii_of_nat (n + 32) else c.

Fixpoint lower (s : string) : string :=
  match s with
  | EmptyString => EmptyString
  | String c s' => String (lower_ascii c) (lower s')
  end.

End DemoApi.

(** ** The pipeline *)

Record RunResult := mkResult {
  total_unique_people : nat;
  total_frames : Z;
  duration_seconds : option Q     (* only [process_camera] reports it *)
}.

Section Pipeline.

(** The model returned by [load_model()]: [model.predict(frame)[0].boxes]. *)
Variable predict : Frame -> exn + list Box.

(** The tracker returned by [initialize_tracker()] and its
    [update_tracks(detections, frame=frame)]. *)
Variable TrackerState : Type.
Variable initialize_tracker : TrackerState.
Variable update_tracks :
  TrackerState -> list Detection -> Frame -> exn + (TrackerState * list Track).

(** The [ffmpeg] binary run on a disk with an input and an output path:
    [None] when the binary is missing, else its exit status and the disk
    it leaves. *)
Variable ffmpeg :
  gmap string VideoFile -> string -> string -> option (Z * gmap string VideoFile).

(** [subprocess.run(['ffmpeg', '-i', i, ..., o, '-y'], check=True, ...)]. *)
Definition run_ffmpeg (i o : string) : M unit := fun w =>
  match ffmpeg (fs w) i o with
  | None => (inl FileNotFoundError, log_ffmpeg i o w)
  | Some (code, disk) =>
      let w' := set_fs (fun _ => disk) (log_ffmpeg i o w) in
      if code =? 0 then (inr tt, w') else (inl (CalledProcessError code), w')
  end.

Definition fix_video_codec (input_path output_path : string) : M string :=
  cap_test ← VideoCapture_path input_path;
  let ret := match cap_feed cap_test with [] => false | _ :: _ => true end in
  cap_release cap_test;;
  if negb ret then
    run_ffmpeg input_path output_path;;
    mret output_path
  else
    mret input_path.

Definition get_detections (frame : Frame) (confidence_threshold : Q) : M (list Detection) :=
  boxes ← lift (predict frame);
  mret (filter_boxes confidence_threshold boxes).

(** One iteration of [for track in tracks] in [draw_tracking_info]; the
    set [active_ids] belongs to the caller and is updated in place. *)
Definition draw_track (acc : Frame * gset Z) (track : Track) : Frame * gset Z :=
  let '(frame, active_ids) := acc in
  if negb (is_confirmed track) then acc
  else
    let active_ids := active_ids ∪ {[track_id track]} in
    match to_ltrb track with
    | Some (l, t, r, b) =>
        let '(x1, y1, x2, y2) := (py_int l, py_int t, py_int r, py_int b) in
        let frame := draw frame (Rectangle x1 y1 x2 y2) in
        let frame := draw frame (TextID (track_id track) x1 (y1 - 10)) in
        (frame, active_ids)
    | None => (frame, active_ids)
    end.

(** Returns the frame and the caller's [active_ids] after the call. *)
Definition draw_tracking_info (frame : Frame) (tracks : list Track)
    (active_ids unique_ids : gset Z) : Frame * gset Z :=
  let '(frame, active_ids) := foldl draw_track (frame, active_ids) tracks in
  let frame := draw frame (TextPeopleCount (size active_ids)) in
  let frame := draw frame (TextTotalUnique (size unique_ids)) in
  (frame, active_ids).

Record LoopState := mkLoop {
  tracker : TrackerState;
  unique_ids : gset Z;
  frame_count : Z
}.

(** [for track in tracks: if track.is_confirmed(): unique_ids.add(track.track_id)] *)
Definition add_confirmed (unique_ids : gset Z) (track : Track) : gset Z :=
  if is_confirmed track then unique_ids ∪ {[track_id track]} else unique_ids.

(** The body of both frame loops, from [frame_count += 1] to [out.write(frame)]. *)
Definition loop_body (out : VideoWriter) (confidence_threshold : Q)
    (frame : Frame) (st : LoopState) : M LoopState :=
  let frame_count := frame_count st + 1 in
  detections ← get_detections frame confidence_threshold;
  '(tracker, tracks) ← lift (update_tracks (tracker st) detections frame);
  let active_ids : gset Z := ∅ in
  let unique_ids := foldl add_confirmed (unique_ids st) tracks in
  let '(frame, active_ids) := draw_tracking_info frame tracks active_ids unique_ids in
  writer_write out frame;;
  mret (mkLoop tracker unique_ids frame_count).

(** [while True: ret, frame = cap.read(); if not ret: break; ...] over the
    frames the file capture still has to deliver. *)
Fixpoint video_loop (out : VideoWriter) (confidence_threshold : Q)
    (pending : list Frame) (st : LoopState) : M LoopState :=
  match pending with
  | [] => mret st
  | frame :: pending =>
      st ← loop_body out confidence_threshold frame st;
      video_loop out confidence_threshold pending st
  end.

Definition process_video (input_path output_path : string)
    (confidence_threshold : Q) : M RunResult :=
  let tracker := initialize_tracker in
  let fixed_path := str_replace output_path ".mp4" "_fixed.mp4" in
  video_path ← fix_video_codec input_path fixed_path;
  cap ← VideoCapture_path video_path;
  if negb (isOpened cap) then raise FailedToOpenVideoFile
  else
    let '(width, height) := (cap_width cap, cap_height cap) in
    let fps := cap_fps cap in
    out ← VideoWriter_open output_path fps (width, height);
    st ← video_loop out confidence_threshold (cap_feed cap) (mkLoop tracker ∅ 0);
    cap_release cap;;
    writer_release out;;
    (if decide (video_path = input_path) then mret tt
     else remove_if_exists video_path);;
    mret (mkResult (size (unique_ids st)) (frame_count st) None).

(** [while frame_count < max_frames: ret, frame = cap.read(); if not ret:
    break; ...]; [pos] is the number of reads made on the device so far.
    Every iteration adds one to [frame_count], so [fuel] iterations are
    enough when [max_frames - frame_count <= fuel]. *)
Fixpoint camera_loop (fuel : nat) (out : VideoWriter) (confidence_threshold : Q)
    (feed : nat -> option Frame) (max_frames : Z) (pos : nat)
    (st : LoopState) : M LoopState :=
  match fuel with
  | O => mret st
  | S fuel =>
      if frame_count st <? max_frames then
        match feed pos with
        | None => mret st
        | Some frame =>
            st ← loop_body out confidence_threshold frame st;
            camera_loop fuel out confidence_threshold feed max_frames (S pos) st
        end
      else mret st
  end.

(** [fps = 30.0] when the camera reports 0. *)
Definition effective_fps (fps : Q) : Q := if Qis_zero fps then 30%Q else fps.

Definition process_camera (camera_index : Z) (output_path : string)
    (duration_seconds : Z) (confidence_threshold : Q) : M RunResult :=
  let tracker := initialize_tracker in
  cap ← VideoCapture_index camera_index;
  if negb (isOpened cap) then raise (FailedToOpenCamera camera_index)
  else
    let '(width, height) := (cap_width cap, cap_height cap) in
    let fps := effective_fps (cap_fps cap) in
    out ← VideoWriter_open output_path fps (width, height);
    let max_frames := py_int (inject_Z duration_seconds * fps) in
    st ← camera_loop (Z.to_nat max_frames) out confidence_threshold
           (cap_feed cap) max_frames 0 (mkLoop tracker ∅ 0);
    cap_release cap;;
    writer_release out;;
    let actual_duration := (inject_Z (frame_count st) / fps)%Q in
    mret (mkResult (size (unique_ids st)) (frame_count st) (Some actual_duration)).

(** What the tracker returns frame after frame when it is fed the
    detections of [frames] in order, starting from state [ts], up to the
    first frame on which a collaborator raises. *)
Fixpoint tracker_outputs (confidence_threshold : Q) (frames : list Frame)
    (ts : TrackerState) : list (list Track) :=
  match frames with
  | [] => []
  | frame :: frames =>
      match predict frame with
      | inl _ => []
      | inr boxes =>
          match update_tracks ts (filter_boxes confidence_threshold boxes) frame with
          | inl _ => []
          | inr (ts, tracks) =>
              tracks :: tracker_outputs confidence_threshold frames ts
          end
      end
  end.

Section Api.

(** [str.lower()]. *)
Variable lower : string -> string.

(** [track_video(file, confidence_threshold)]; [timestamp] is
    [datetime.now().strftime("%Y%m%d_%H%M%S")]. *)
Definition track_video (timestamp : string) (upload : UploadFile)
    (confidence_threshold : Q) (w : World) : (HTTPException + VideoResponse) * World :=
  match filename upload with
  | None | Some EmptyString => (inl (mkHTTP 400 NoFileProvided), w)
  | Some name =>
      let file_ext := lower (splitext name).2 in
      if negb (bool_decide (file_ext ∈ allowed_extensions))
      then (inl (mkHTTP 400 InvalidFileFormat), w)
      else
        let input_filename := "input_" +:+ timestamp +:+ file_ext in
        let output_filename := "output_" +:+ timestamp +:+ ".mp4" in
        let input_path := os_path_join UPLOAD_DIR input_filename in
        let output_path := os_path_join OUTPUT_DIR output_filename in
        (* with open(input_path, "wb") as buffer: shutil.copyfileobj(...) *)
        let w := set_fs (insert input_path (file upload)) w in
        match process_video input_path output_path confidence_threshold w with
        | (inr result, w) =>
            let w := set_fs (delete input_path) w in
            (inr (mkVideoResponse true "Video processed successfully" output_filename
                    (total_unique_people result) (total_frames result)
                    ("/api/download/" +:+ output_filename)), w)
        | (inl e, w) =>
            let w := set_fs (delete input_path) w in
            let w := set_fs (delete output_path) w in
            (inl (mkHTTP 500 (ProcessingError e)), w)
        end
  end.

(** [track_camera(request)]. *)
Definition track_camera (timestamp : string) (request : CameraRequest) (w : World)
    : (HTTPException + CameraResponse) * World :=
  let output_filename := "camera_output_" +:+ timestamp +:+ ".mp4" in
  let output_path := os_path_join OUTPUT_DIR output_filename in
  match process_camera (req_camera_index request) output_path
          (req_duration_seconds request) (req_confidence_threshold request) w with
  | (inr result, w) =>
      match duration_seconds result with
      | Some duration =>
          (inr (mkCameraResponse true "Camera feed processed successfully" output_filename
                  (total_unique_people result) (total_frames result) duration
                  ("/api/download/" +:+ output_filename)), w)
      | None =>
          (inl (mkHTTP 500 (CameraResultKeyError "duration_seconds")),
           set_fs (delete output_path) w)
      end
  | (inl e, w) =>
      (inl (mkHTTP 500 (CameraProcessingError e)), set_fs (delete output_path) w)
  end.

End Api.


(** [set_solver] goes through the whole context; [sets] first forgets the
    collaborators the goal does not mention. *)
Ltac sets :=
  try clear ffmpeg; try clear predict; try clear update_tracks;
  try clear initialize_tracker; try clear TrackerState;
  set_solver.

(** ** Facts about the monad *)

Lemma bind_inr_inv {A B} (m : M A) (f : A -> M B) w b w' :
  (m ≫= f) w = (inr b, w') ->
  exists a w1, m w = (inr a, w1) /\ f a w1 = (inr b, w').
Proof.
  unfold mbind, M_bind. destruct (m w) as [[e|a] w1]; [discriminate|].
  intros H. by exists a, w1.
Qed.

(** ** The loop body, step by step *)

Lemma loop_body_eq out thr frame st w :
  loop_body out thr frame st w =
  match predict frame with
  | inl e => (inl e, w)
  | inr boxes =>
      match update_tracks (tracker st) (filter_boxes thr boxes) frame with
      | inl e => (inl e, w)
      | inr (ts, tracks) =>
          let u := foldl add_confirmed (unique_ids st) tracks in
          (inr (mkLoop ts u (frame_count st + 1)),
           set_fs (alter (append_frame (draw_tracking_info frame tracks ∅ u).1)
                     (vw_path out)) w)
      end
  end.
Proof.
  unfold loop_body, get_detections, lift, mbind, M_bind, mret, M_ret.
  destruct (predict frame) as [e|boxes]; [done|].
  destruct (update_tracks _ _ _) as [e|[ts tracks]]; [done|].
  cbn. by destruct (draw_tracking_info _ _ _ _).
Qed.


(** ** The detector filter *)

Lemma keeps_spec thr b :
  keeps thr b = true <-> box_cls b = person_cls /\ (thr < box_conf b)%Q.
Proof.
  unfold keeps, Qgtb. rewrite andb_true_iff, Z.eqb_eq, negb_true_iff.
  split; intros [Hc Hq]; split; try done.
  - apply Qnot_le_lt. intros Hle. apply Qle_bool_iff in Hle. congruence.
  - apply not_true_is_false. intros Hle. apply Qle_bool_iff in Hle.
    by apply Qlt_not_le in Hq.
Qed.

Lemma filter_boxes_from thr acc boxes :
  foldl (fun detections box =>
           if keeps thr box then detections ++ [to_detection box] else detections)
    acc boxes
  = acc ++ (to_detection <$> List.filter (keeps thr) boxes).
Proof.
  revert acc. induction boxes as [|b boxes IH]; intros acc; simpl.
  - by rewrite app_nil_r.
  - rewrite IH. destruct (keeps thr b); simpl; [by rewrite <- app_assoc | done].
Qed.

Lemma filter_boxes_eq thr boxes :
  filter_boxes thr boxes = to_detection <$> List.filter (keeps thr) boxes.
Proof. unfold filter_boxes. by rewrite filter_boxes_from. Qed.

(** ** The identity sets *)

Lemma confirmed_ids_cons t tracks :
  confirmed_ids (t :: tracks) =
  if is_confirmed t then {[track_id t]} ∪ confirmed_ids tracks else confirmed_ids tracks.
Proof.
  unfold confirmed_ids. rewrite filter_cons.
  destruct (is_confirmed t); case_decide; try done.
Qed.

Lemma foldl_add_confirmed u tracks :
  foldl add_confirmed u tracks = u ∪ confirmed_ids tracks.
Proof.
  revert u. induction tracks as [|t tracks IH]; intros u; simpl.
  - unfold confirmed_ids. simpl. sets.
  - rewrite IH, confirmed_ids_cons. unfold add_confirmed.
    destruct (is_confirmed t); sets.
Qed.

Lemma elem_of_confirmed_ids i tracks :
  i ∈ confirmed_ids tracks <->
  exists t, t ∈ tracks /\ is_confirmed t = true /\ track_id t = i.
Proof.
  unfold confirmed_ids. rewrite elem_of_list_to_set, list_elem_of_fmap.
  split.
  - intros (t & -> & Ht). apply list_elem_of_filter in Ht as [Hc Ht]. eauto.
  - intros (t & Ht & Hc & <-). exists t. split; [done|].
    by apply list_elem_of_filter.
Qed.

(** ** The annotator *)

Lemma foldl_draw_track frame active tracks :
  foldl draw_track (frame, active) tracks =
  (mkFrame (pixels frame)
     (drawn frame ++ concat (box_ops <$> filter (fun t => is_confirmed t = true) tracks)),
   active ∪ confirmed_ids tracks).
Proof.
  revert frame active. induction tracks as [|t tracks IH]; intros frame active; cbn [foldl].
  - simpl. rewrite app_nil_r. destruct frame. f_equal. unfold confirmed_ids. simpl. sets.
  - rewrite filter_cons, confirmed_ids_cons.
    assert (Hstep : draw_track (frame, active) t =
      if is_confirmed t
      then (mkFrame (pixels frame) (drawn frame ++ box_ops t), active ∪ {[track_id t]})
      else (frame, active)).
    { unfold draw_track, box_ops, draw.
      destruct (is_confirmed t); simpl; [|done].
      destruct (to_ltrb t) as [[[[l t'] r] b]|]; simpl.
      - by rewrite <- app_assoc.
      - rewrite app_nil_r. by destruct frame. }
    rewrite Hstep. destruct (is_confirmed t) eqn:Hc; case_decide; try done.
    rewrite IH. simpl. f_equal; [|sets]. by rewrite <- app_assoc.
Qed.

Lemma draw_tracking_info_eq frame tracks active unique :
  draw_tracking_info frame tracks active unique =
  (mkFrame (pixels frame)
     (drawn frame
      ++ concat (box_ops <$> filter (fun t => is_confirmed t = true) tracks)
      ++ [TextPeopleCount (size (active ∪ confirmed_ids tracks));
          TextTotalUnique (size unique)]),
   active ∪ confirmed_ids tracks).
Proof.
  unfold draw_tracking_info. rewrite foldl_draw_track. unfold draw. simpl.
  f_equal. f_equal. by rewrite <- !app_assoc.
Qed.


(** ** What one iteration does *)

Lemma same_handles_refl w : same_handles w w.
Proof. by repeat split. Qed.

Lemma same_handles_trans w1 w2 w3 :
  same_handles w1 w2 -> same_handles w2 w3 -> same_handles w1 w3.
Proof. unfold same_handles. intros (?&?&?&?) (?&?&?&?). repeat split; congruence. Qed.

Lemma loop_body_inr out thr frame st w st' w' :
  loop_body out thr frame st w = (inr st', w') ->
  exists boxes ts tracks,
    predict frame = inr boxes /\
    update_tracks (tracker st) (filter_boxes thr boxes) frame = inr (ts, tracks) /\
    st' = mkLoop ts (unique_ids st ∪ confirmed_ids tracks) (frame_count st + 1) /\
    w' = set_fs (alter (append_frame
                   (draw_tracking_info frame tracks ∅
                      (unique_ids st ∪ confirmed_ids tracks)).1) (vw_path out)) w.
Proof.
  rewrite loop_body_eq.
  destruct (predict frame) as [e|boxes]; [discriminate|].
  destruct (update_tracks _ _ _) as [e|[ts tracks]] eqn:Hu; [discriminate|].
  cbn. rewrite foldl_add_confirmed. intros [= <- <-]. by exists boxes, ts, tracks.
Qed.

Lemma loop_body_handles out thr frame st w r w' :
  loop_body out thr frame st w = (r, w') -> same_handles w w'.
Proof.
  rewrite loop_body_eq.
  destruct (predict frame) as [e|boxes]; [intros [= <- <-]; apply same_handles_refl|].
  destruct (update_tracks _ _ _) as [e|[ts tracks]];
    [intros [= <- <-]; apply same_handles_refl|].
  cbn. intros [= <- <-]. by repeat split.
Qed.

Lemma loop_body_disk out thr frame st w r w' p :
  loop_body out thr frame st w = (r, w') -> p <> vw_path out ->
  fs w' !! p = fs w !! p.
Proof.
  rewrite loop_body_eq.
  destruct (predict frame) as [e|boxes]; [by intros [= <- <-]|].
  destruct (update_tracks _ _ _) as [e|[ts tracks]]; [by intros [= <- <-]|].
  cbn. intros [= <- <-] Hp. cbn. by rewrite lookup_alter_ne.
Qed.

(** ** The file loop *)

Lemma video_loop_app out thr l1 l2 st w :
  video_loop out thr (l1 ++ l2) st w =
  (video_loop out thr l1 st ≫= video_loop out thr l2) w.
Proof.
  revert st w. induction l1 as [|f l1 IH]; intros st w; [done|].
  cbn [app video_loop]. unfold mbind, M_bind at 1 3.
  destruct (loop_body out thr f st w) as [[e|st1] w1] eqn:Hb; cbn.
  - unfold mbind, M_bind. cbn. by rewrite Hb.
  - rewrite IH. unfold mbind, M_bind. cbn. by rewrite Hb.
Qed.

Lemma video_loop_handles out thr l st w r w' :
  video_loop out thr l st w = (r, w') -> same_handles w w'.
Proof.
  revert st w. induction l as [|f l IH]; intros st w; cbn [video_loop].
  - intros [= <- <-]. apply same_handles_refl.
  - unfold mbind, M_bind.
    destruct (loop_body out thr f st w) as [[e|st1] w1] eqn:Hb.
    + intros [= <- <-]. by eapply loop_body_handles.
    + intros H. eapply same_handles_trans; [by eapply loop_body_handles|by eapply IH].
Qed.

Lemma video_loop_disk out thr l st w r w' p :
  video_loop out thr l st w = (r, w') -> p <> vw_path out ->
  fs w' !! p = fs w !! p.
Proof.
  intros H Hp. revert st w H. induction l as [|f l IH]; intros st w; cbn [video_loop].
  - by intros [= <- <-].
  - unfold mbind, M_bind.
    destruct (loop_body out thr f st w) as [[e|st1] w1] eqn:Hb.
    + intros [= <- <-]. by eapply loop_body_disk.
    + intros H. rewrite (IH _ _ H). by eapply loop_body_disk.
Qed.

Lemma video_loop_inr out thr l st w st' w' :
  video_loop out thr l st w = (inr st', w') ->
  frame_count st' = frame_count st + Z.of_nat (length l) /\
  unique_ids st ⊆ unique_ids st'.
Proof.
  revert st w. induction l as [|f l IH]; intros st w; cbn [video_loop].
  - intros [= <- <-]. split; [simpl; lia|done].
  - intros H. apply bind_inr_inv in H as (st1 & w1 & Hb & H).
    apply IH in H as [Hc Hu].
    apply loop_body_inr in Hb as (boxes & ts & tracks & _ & _ & -> & _).
    cbn in *. split; [lia|sets].
Qed.


(** ** The camera loop reads a prefix of the device feed *)

Lemma camera_frames_length_le feed pos n :
  (length (camera_frames feed pos n) <= n)%nat.
Proof.
  revert pos. induction n as [|n IH]; intros pos; simpl; [lia|].
  destruct (feed pos); simpl; [specialize (IH (S pos))|]; lia.
Qed.

Lemma camera_frames_lookup feed pos n k frame :
  camera_frames feed pos n !! k = Some frame -> feed (pos + k)%nat = Some frame.
Proof.
  revert pos k. induction n as [|n IH]; intros pos k; simpl; [done|].
  destruct (feed pos) as [f|] eqn:Hf; [|done].
  destruct k as [|k]; simpl.
  - intros [= <-]. by rewrite Nat.add_0_r.
  - intros H. apply IH in H. by rewrite Nat.add_succ_r.
Qed.

Lemma camera_frames_stop feed pos n :
  (length (camera_frames feed pos n) < n)%nat ->
  feed (pos + length (camera_frames feed pos n))%nat = None.
Proof.
  revert pos. induction n as [|n IH]; intros pos; simpl; [lia|].
  destruct (feed pos) as [f|] eqn:Hf; simpl.
  - intros H. rewrite Nat.add_succ_r. apply (IH (S pos)). lia.
  - intros _. by rewrite Nat.add_0_r.
Qed.

Lemma camera_frames_full feed pos n :
  (forall k, (k < n)%nat -> feed (pos + k)%nat <> None) ->
  length (camera_frames feed pos n) = n.
Proof.
  intros H. destruct (decide (length (camera_frames feed pos n) < n)%nat) as [Hlt|Hge].
  - exfalso. by apply (H _ Hlt), camera_frames_stop.
  - pose proof (camera_frames_length_le feed pos n). lia.
Qed.

Lemma camera_frames_take feed pos a b :
  (a <= b)%nat -> camera_frames feed pos a = take a (camera_frames feed pos b).
Proof.
  revert pos b. induction a as [|a IH]; intros pos b Hab; [done|].
  destruct b as [|b]; [lia|]. simpl.
  destruct (feed pos); [|done]. simpl. f_equal. apply IH. lia.
Qed.

Lemma camera_loop_bounded fuel out thr feed max_frames pos st w :
  camera_loop fuel out thr feed max_frames pos st w =
  video_loop out thr
    (camera_frames feed pos (Nat.min fuel (Z.to_nat (max_frames - frame_count st))))
    st w.
Proof.
  revert pos st w. induction fuel as [|fuel IH]; intros pos st w; [done|].
  cbn [camera_loop]. destruct (frame_count st <? max_frames) eqn:Hlt.
  - apply Z.ltb_lt in Hlt.
    replace (Z.to_nat (max_frames - frame_count st))
      with (S (Z.to_nat (max_frames - (frame_count st + 1)))) by lia.
    cbn [Nat.min camera_frames]. destruct (feed pos) as [frame|]; [|done].
    cbn [video_loop]. unfold mbind, M_bind.
    destruct (loop_body out thr frame st w) as [[e|st1] w1] eqn:Hb; [done|].
    apply loop_body_inr in Hb as (boxes & ts & tracks & _ & _ & -> & _).
    by rewrite IH.
  - apply Z.ltb_ge in Hlt.
    replace (Z.to_nat (max_frames - frame_count st)) with O by lia.
    by rewrite Nat.min_0_r.
Qed.

Lemma camera_loop_eq fuel out thr feed max_frames pos st w :
  (Z.to_nat (max_frames - frame_count st) <= fuel)%nat ->
  camera_loop fuel out thr feed max_frames pos st w =
  video_loop out thr
    (camera_frames feed pos (Z.to_nat (max_frames - frame_count st))) st w.
Proof. intros H. rewrite camera_loop_bounded. by rewrite Nat.min_r. Qed.

(** ** The codec repair step *)

Lemma open_release_id (t : Target) w :
  set_open_caps (remove_first t) (set_open_caps (cons t) w) = w.
Proof. destruct w. unfold set_open_caps. cbn. by rewrite decide_True. Qed.

Lemma fix_video_codec_readable input_path output_path w :
  readable w input_path = true ->
  fix_video_codec input_path output_path w = (inr input_path, w).
Proof.
  unfold readable, fix_video_codec, VideoCapture_path, mbind, M_bind.
  destruct (fs w !! input_path) as [vf|]; [|done].
  destruct (vf_opens vf); [|done]. cbn.
  destruct (vf_frames vf); [done|]. intros _. cbn.
  by rewrite open_release_id.
Qed.

Lemma fix_video_codec_unreadable input_path output_path w :
  readable w input_path = false ->
  fix_video_codec input_path output_path w =
  match ffmpeg (fs w) input_path output_path with
  | None => (inl FileNotFoundError, log_ffmpeg input_path output_path w)
  | Some (code, disk) =>
      (if code =? 0 then inr output_path else inl (CalledProcessError code),
       set_fs (fun _ => disk) (log_ffmpeg input_path output_path w))
  end.
Proof.
  unfold readable, fix_video_codec, VideoCapture_path, run_ffmpeg, mbind, M_bind.
  destruct (fs w !! input_path) as [vf|] eqn:Hfs.
  - destruct (vf_opens vf); cbn.
    + destruct (vf_frames vf); [|done]. intros _. cbn.
      rewrite open_release_id.
      destruct (ffmpeg _ _ _) as [[code disk]|]; [|done].
      by destruct (code =? 0).
    + intros _. destruct (ffmpeg _ _ _) as [[code disk]|]; [|done].
      by destruct (code =? 0).
  - intros _. cbn. destruct (ffmpeg _ _ _) as [[code disk]|]; [|done].
    by destruct (code =? 0).
Qed.

Lemma fix_video_codec_handles input_path output_path w r w' :
  fix_video_codec input_path output_path w = (r, w') ->
  open_caps w' = open_caps w /\ open_writers w' = open_writers w /\
  cameras w' = cameras w.
Proof.
  destruct (readable w input_path) eqn:Hr.
  - rewrite fix_video_codec_readable by done. by intros [= <- <-].
  - rewrite fix_video_codec_unreadable by done.
    destruct (ffmpeg _ _ _) as [[code disk]|]; by intros [= <- <-].
Qed.

(** ** The two runs, unfolded *)

Lemma process_video_eq input_path output_path thr w :
  process_video input_path output_path thr w =
  match fix_video_codec input_path
          (str_replace output_path ".mp4" "_fixed.mp4") w with
  | (inl e, w1) => (inl e, w1)
  | (inr video_path, w1) =>
      match fs w1 !! video_path with
      | Some vf =>
          if vf_opens vf then
            match video_loop (mkWriter output_path) thr (vf_frames vf)
                    (mkLoop initialize_tracker ∅ 0)
                    (loop_start (File video_path) output_path
                       (vf_width vf) (vf_height vf) (vf_fps vf) w1) with
            | (inl e, w2) => (inl e, w2)
            | (inr st, w2) =>
                (inr (mkResult (size (unique_ids st)) (frame_count st) None),
                 cleaned input_path video_path output_path w2)
            end
          else (inl FailedToOpenVideoFile, w1)
      | None => (inl FailedToOpenVideoFile, w1)
      end
  end.
Proof.
  unfold process_video, mbind, M_bind at 1.
  destruct (fix_video_codec _ _ w) as [[e|video_path] w1]; [done|].
  unfold mbind, M_bind at 1. unfold VideoCapture_path.
  destruct (fs w1 !! video_path) as [vf|]; [|done].
  destruct (vf_opens vf); [|done]. cbn.
  unfold loop_start. unfold M_bind at 1.
  destruct (video_loop _ _ _ _ _) as [[e|st] w2]; [done|].
  unfold cleaned, released, M_bind, writer_release, remove_if_exists, modify.
  cbn. by case_decide.
Qed.

Lemma process_camera_eq camera_index output_path duration thr w :
  process_camera camera_index output_path duration thr w =
  match cameras w !! camera_index with
  | None => (inl (FailedToOpenCamera camera_index), w)
  | Some cam =>
      let fps := effective_fps (cam_fps cam) in
      let max_frames := py_int (inject_Z duration * fps) in
      match video_loop (mkWriter output_path) thr
              (camera_frames (cam_feed cam) 0 (Z.to_nat max_frames))
              (mkLoop initialize_tracker ∅ 0)
              (loop_start (Device camera_index) output_path
                 (cam_width cam) (cam_height cam) fps w) with
      | (inl e, w2) => (inl e, w2)
      | (inr st, w2) =>
          (inr (mkResult (size (unique_ids st)) (frame_count st)
                  (Some (inject_Z (frame_count st) / fps)%Q)),
           released (Device camera_index) output_path w2)
      end
  end.
Proof.
  unfold process_camera, mbind, M_bind at 1. unfold VideoCapture_index.
  destruct (cameras w !! camera_index) as [cam|]; [|done]. cbn.
  unfold mbind, M_bind at 1.
  rewrite camera_loop_eq by (cbn; lia). cbn [frame_count].
  rewrite Z.sub_0_r. unfold loop_start.
  destruct (video_loop _ _ _ _ _) as [[e|st] w2]; [done|]. done.
Qed.


(** ** Runs over a prefix of the frames *)

Lemma video_loop_split out thr l1 l2 st w s2 w2 :
  video_loop out thr (l1 ++ l2) st w = (inr s2, w2) ->
  exists s1 w1, video_loop out thr l1 st w = (inr s1, w1) /\
                video_loop out thr l2 s1 w1 = (inr s2, w2).
Proof. rewrite video_loop_app. apply bind_inr_inv. Qed.

Lemma video_loop_take out thr pending st w i j si wi sj wj :
  (i <= j)%nat ->
  video_loop out thr (take i pending) st w = (inr si, wi) ->
  video_loop out thr (take j pending) st w = (inr sj, wj) ->
  unique_ids si ⊆ unique_ids sj.
Proof.
  intros Hij Hi Hj.
  rewrite <- (take_drop i (take j pending)), take_take, Nat.min_l in Hj by done.
  apply video_loop_split in Hj as (s1 & w1 & Hi' & Hj).
  rewrite Hi in Hi'. injection Hi' as <- <-.
  by apply video_loop_inr in Hj as [_ ?].
Qed.

(** ** C1 *)



(** ** C2 *)

Lemma keeps_at_threshold thr b : (box_conf b <= thr)%Q -> keeps thr b = false.
Proof.
  intros Hle. apply not_true_is_false. intros [_ Hlt]%keeps_spec.
  by apply Qlt_not_le in Hlt.
Qed.

Lemma filter_boxes_none thr boxes :
  (forall b, b ∈ boxes -> (box_conf b <= thr)%Q) -> filter_boxes thr boxes = [].
Proof.
  rewrite filter_boxes_eq. induction boxes as [|b boxes IH]; intros H; [done|].
  simpl. rewrite keeps_at_threshold by (apply H; left).
  apply IH. intros b' Hb'. apply H. by right.
Qed.

Lemma confirmed_ids_none tracks :
  (forall t, t ∈ tracks -> is_confirmed t = false) -> confirmed_ids tracks = ∅.
Proof.
  intros H. apply set_eq. intros i. rewrite elem_of_confirmed_ids.
  split; [|sets]. intros (t & Ht & Hc & _). apply H in Ht. congruence.
Qed.

Section Threshold_one.

(** The detection model reports confidences of at most 1. *)
Hypothesis conf_le_1 :
  forall frame boxes b, predict frame = inr boxes -> b ∈ boxes -> (box_conf b <= 1)%Q.

(** A tracker that has never been given a detection confirms no track. *)
Variable Idle : TrackerState -> Prop.
Hypothesis idle_init : Idle initialize_tracker.
Hypothesis idle_step :
  forall s frame s' tracks,
    Idle s -> update_tracks s [] frame = inr (s', tracks) ->
    Idle s' /\ forall t, t ∈ tracks -> is_confirmed t = false.

Lemma video_loop_threshold_one out l st w st' w' :
  video_loop out 1 l st w = (inr st', w') ->
  Idle (tracker st) -> unique_ids st = ∅ ->
  Idle (tracker st') /\ unique_ids st' = ∅.
Proof using conf_le_1 idle_step.
  revert st w. induction l as [|f l IH]; intros st w; cbn [video_loop].
  - by intros [= <- <-].
  - intros H Hidle Hu. apply bind_inr_inv in H as (st1 & w1 & Hb & H).
    apply loop_body_inr in Hb as (boxes & ts & tracks & Hp & Ht & -> & _).
    rewrite (filter_boxes_none 1 boxes) in Ht by eauto.
    apply idle_step in Ht as [Hts Hnone]; [|done].
    apply IH in H; [done|done|]. cbn.
    rewrite Hu, confirmed_ids_none by done. sets.
Qed.

(** C2. [get_detections] returns, in their order, the conversions of
    exactly the boxes of class person whose confidence is strictly above
    the threshold, so a box whose confidence equals the threshold is
    dropped. With threshold 1.0, a model whose confidences are at most 1
    and a tracker that confirms no track before it is given a detection,
    no detection passes and both runs report 0 unique people. *)
Theorem threshold_is_exclusive :
  (forall frame thr w,
     get_detections frame thr w =
     (match predict frame with
      | inl e => inl e
      | inr boxes => inr (to_detection <$> List.filter (keeps thr) boxes)
      end, w)) /\
  (forall thr b,
     keeps thr b = true <-> box_cls b = person_cls /\ (thr < box_conf b)%Q) /\
  (forall thr b, (box_conf b == thr)%Q -> keeps thr b = false) /\
  (forall frame w detections w',
     get_detections frame 1 w = (inr detections, w') -> detections = []) /\
  (forall input_path output_path w res w',
     process_video input_path output_path 1 w = (inr res, w') ->
     total_unique_people res = O) /\
  (forall camera_index output_path duration w res w',
     process_camera camera_index output_path duration 1 w = (inr res, w') ->
     total_unique_people res = O).
Proof using conf_le_1 idle_init idle_step.
  repeat apply conj.
  - intros frame thr w. unfold get_detections, lift, mbind, M_bind.
    destruct (predict frame) as [e|boxes]; [done|]. cbn. by rewrite filter_boxes_eq.
  - apply keeps_spec.
  - intros thr b Heq. apply keeps_at_threshold. rewrite Heq. apply Qle_refl.
  - intros frame w detections w'. unfold get_detections, lift, mbind, M_bind.
    destruct (predict frame) as [e|boxes] eqn:Hp; [discriminate|]. cbn.
    intros [= <- <-]. apply filter_boxes_none. eauto.
  - intros input_path output_path w res w'. rewrite process_video_eq.
    destruct (fix_video_codec _ _ w) as [[e|video_path] w1]; [discriminate|].
    destruct (fs w1 !! video_path) as [vf|]; [|discriminate].
    destruct (vf_opens vf); [|discriminate].
    destruct (video_loop _ _ _ _ _) as [[e|st] w2] eqn:Hl; [discriminate|].
    intros [= <- <-]. cbn.
    apply video_loop_threshold_one in Hl as [_ ->]; done.
  - intros camera_index output_path duration w res w'. rewrite process_camera_eq.
    destruct (cameras w !! camera_index) as [cam|]; [|discriminate]. cbn zeta.
    destruct (video_loop _ _ _ _ _) as [[e|st] w2] eqn:Hl; [discriminate|].
    intros [= <- <-]. cbn.
    apply video_loop_threshold_one in Hl as [_ ->]; done.
Qed.

End Threshold_one.


(** ** C3 *)

Lemma effective_fps_zero fps : (fps == 0)%Q -> effective_fps fps = 30%Q.
Proof.
  intros H. unfold effective_fps, Qis_zero.
  by apply Qeq_bool_iff in H as ->.
Qed.

Lemma effective_fps_nonzero fps : ~ (fps == 0)%Q -> effective_fps fps = fps.
Proof.
  intros H. unfold effective_fps, Qis_zero.
  destruct (Qeq_bool fps 0) eqn:E; [|done]. by apply Qeq_bool_iff in E.
Qed.

Lemma process_camera_inr camera_index output_path duration thr w res w' cam :
  cameras w !! camera_index = Some cam ->
  process_camera camera_index output_path duration thr w = (inr res, w') ->
  let fps := effective_fps (cam_fps cam) in
  let frames := camera_frames (cam_feed cam) 0
                  (Z.to_nat (py_int (inject_Z duration * fps))) in
  total_frames res = Z.of_nat (length frames) /\
  duration_seconds res = Some (inject_Z (total_frames res) / fps)%Q.
Proof.
  intros Hcam. rewrite process_camera_eq, Hcam. cbn zeta.
  destruct (video_loop _ _ _ _ _) as [[e|st] w2] eqn:Hl; [discriminate|].
  intros [= <- <-]. cbn. apply video_loop_inr in Hl as [-> _]. cbn. split; [lia|done].
Qed.



(** ** C4 *)

Lemma remove_first_head {A} `{EqDecision A} (x : A) l : remove_first x (x :: l) = l.
Proof. cbn. by rewrite decide_True. Qed.

(** C4, amended. [process_video] cleans up on the exit path where the
    frame loop ends normally: the capture and the writer it opened are
    released and the repaired copy, when its path differs from the input,
    is deleted. An exception raised inside the frame loop reaches the
    caller unchanged and no clean-up runs: the capture and the writer stay
    open and the repaired copy stays on disk. *)
Theorem cleanup_only_on_normal_exit input_path output_path thr w video_path w1 vf :
  fix_video_codec input_path (str_replace output_path ".mp4" "_fixed.mp4") w
    = (inr video_path, w1) ->
  fs w1 !! video_path = Some vf ->
  vf_opens vf = true ->
  match video_loop (mkWriter output_path) thr (vf_frames vf)
          (mkLoop initialize_tracker ∅ 0)
          (loop_start (File video_path) output_path
             (vf_width vf) (vf_height vf) (vf_fps vf) w1) with
  | (inr st, w2) =>
      exists res w',
        process_video input_path output_path thr w = (inr res, w') /\
        open_caps w' = open_caps w /\
        open_writers w' = open_writers w /\
        (video_path <> input_path -> fs w' !! video_path = None)
  | (inl e, w2) =>
      process_video input_path output_path thr w = (inl e, w2) /\
      open_caps w2 = File video_path :: open_caps w /\
      open_writers w2 = output_path :: open_writers w /\
      (video_path <> output_path -> fs w2 !! video_path = Some vf)
  end.
Proof.
  intros Hfix Hvf Hopen.
  rewrite process_video_eq, Hfix, Hvf, Hopen.
  apply fix_video_codec_handles in Hfix as (Hc & Hw & _).
  destruct (video_loop _ _ _ _ _) as [[e|st] w2] eqn:Hl.
  - pose proof (video_loop_handles _ _ _ _ _ _ _ Hl) as (Hc2 & Hw2 & _).
    cbn in Hc2, Hw2. repeat apply conj; [done|congruence|congruence|].
    intros Hne. rewrite (video_loop_disk _ _ _ _ _ _ _ video_path Hl) by done.
    cbn. by rewrite lookup_insert_ne.
  - pose proof (video_loop_handles _ _ _ _ _ _ _ Hl) as (Hc2 & Hw2 & _).
    cbn in Hc2, Hw2. eexists _, _. split; [done|].
    unfold cleaned, released. case_decide; cbn; rewrite Hc2, Hw2, !remove_first_head.
    + by repeat split.
    + repeat split; [done..|]. intros _. apply lookup_delete_eq.
Qed.

(** ** C5 *)

(** C5. On an input whose first frame decodes, [fix_video_codec] returns
    the input path and leaves the world as it found it: the disk is the
    same and [ffmpeg] has not run. Run a second time, on the world the
    first run left, it does the same. *)
Theorem fix_video_codec_pass_through input_path output_path w :
  readable w input_path = true ->
  fix_video_codec input_path output_path w = (inr input_path, w) /\
  fs (fix_video_codec input_path output_path w).2 = fs w /\
  ffmpeg_runs (fix_video_codec input_path output_path w).2 = ffmpeg_runs w /\
  fix_video_codec input_path output_path
    (fix_video_codec input_path output_path w).2 = (inr input_path, w).
Proof.
  intros Hr. pose proof (fix_video_codec_readable _ output_path _ Hr) as Hfix.
  rewrite Hfix. cbn. by rewrite Hfix.
Qed.

(** ** C6 *)

(** C6. On an input whose first frame does not decode, when [ffmpeg] is
    missing or exits with a non-zero status, [fix_video_codec] raises the
    error of the subprocess call and returns no path; [ffmpeg] has been
    invoked once; and [process_video], its caller, fails with the same
    error in the same world. *)
Theorem fix_video_codec_transcode_failure input_path output_path w :
  readable w input_path = false ->
  (forall disk, ffmpeg (fs w) input_path output_path <> Some (0, disk)) ->
  exists e w',
    fix_video_codec input_path output_path w = (inl e, w') /\
    e = match ffmpeg (fs w) input_path output_path with
        | None => FileNotFoundError
        | Some (code, _) => CalledProcessError code
        end /\
    TranscodeFailure e = true /\
    ffmpeg_runs w' = (input_path, output_path) :: ffmpeg_runs w /\
    (forall out thr,
       output_path = str_replace out ".mp4" "_fixed.mp4" ->
       process_video input_path out thr w = (inl e, w')).
Proof.
  intros Hr Hfail.
  assert (Hfix : exists e w',
    fix_video_codec input_path output_path w = (inl e, w') /\
    e = match ffmpeg (fs w) input_path output_path with
        | None => FileNotFoundError
        | Some (code, _) => CalledProcessError code
        end /\
    TranscodeFailure e = true /\
    ffmpeg_runs w' = (input_path, output_path) :: ffmpeg_runs w).
  { rewrite fix_video_codec_unreadable by done.
    destruct (ffmpeg _ _ _) as [[code disk]|] eqn:Hf.
    - destruct (code =? 0) eqn:Hc.
      + apply Z.eqb_eq in Hc as ->. by destruct (Hfail disk).
      + by eexists _, _.
    - by eexists _, _. }
  destruct Hfix as (e & w' & Hfix & He & Ht & Hruns).
  exists e, w'. repeat apply conj; try done.
  intros out thr ->. by rewrite process_video_eq, Hfix.
Qed.

(** ** C7 *)

Lemma cannot_open_unreadable w path :
  cannot_open (fs w) path = true -> readable w path = false.
Proof.
  unfold cannot_open, readable. destruct (fs w !! path) as [vf|]; [|done].
  by destruct (vf_opens vf).
Qed.

(** C7, amended. A run whose source cannot be opened fails before the
    writer is created, so the Frame Sink never exists and the run itself
    writes nothing to disk. For a camera index the failure is the
    failed-to-open exception (SourceUnavailable). For a file path that
    cannot be opened the codec repair step runs first: when its transcode
    fails (as it does for a path that does not exist) the run fails with
    that transcode error, and when the transcode exits with status 0 but
    leaves no copy that opens the run fails with the failed-to-open
    exception. *)
Theorem unopenable_source_fails_without_sink
    camera_index input_path output_path duration thr w :
  let fixed_path := str_replace output_path ".mp4" "_fixed.mp4" in
  cameras w !! camera_index = None ->
  cannot_open (fs w) input_path = true ->
  (forall disk, ffmpeg (fs w) input_path fixed_path = Some (0, disk) ->
                cannot_open disk fixed_path = true) ->
  process_camera camera_index output_path duration thr w
    = (inl (FailedToOpenCamera camera_index), w) /\
  SourceUnavailable (FailedToOpenCamera camera_index) = true /\
  exists e w',
    process_video input_path output_path thr w = (inl e, w') /\
    e = match ffmpeg (fs w) input_path fixed_path with
        | None => FileNotFoundError
        | Some (code, _) =>
            if code =? 0 then FailedToOpenVideoFile else CalledProcessError code
        end /\
    (if SourceUnavailable e then TranscodeFailure e = false
     else TranscodeFailure e = true) /\
    open_writers w' = open_writers w /\
    open_caps w' = open_caps w /\
    fs w' = match ffmpeg (fs w) input_path fixed_path with
            | None => fs w
            | Some (_, disk) => disk
            end.
Proof.
  intros fixed_path Hcam Hfile Hrepair. repeat apply conj.
  - by rewrite process_camera_eq, Hcam.
  - done.
  - rewrite process_video_eq. fold fixed_path.
    rewrite fix_video_codec_unreadable by by apply cannot_open_unreadable.
    destruct (ffmpeg _ _ _) as [[code disk]|] eqn:Hf.
    + destruct (code =? 0) eqn:Hc.
      * apply Z.eqb_eq in Hc as ->. specialize (Hrepair disk eq_refl).
        unfold cannot_open in Hrepair. cbn.
        destruct (disk !! fixed_path) as [vf|].
        -- destruct (vf_opens vf); [done|]. by eexists _, _.
        -- by eexists _, _.
      * by eexists _, _.
    + by eexists _, _.
Qed.


(** ** C8 *)

Lemma py_int_floor x : (0 <= x)%Q -> py_int x = Qfloor x.
Proof.
  intros Hx. unfold py_int, Qfloor. destruct x as [n d]. cbn.
  apply Z.quot_div_nonneg; [|lia]. unfold Qle in Hx. cbn in Hx. lia.
Qed.

Lemma py_int_within_one x :
  (0 <= x)%Q -> (x - 1 < inject_Z (py_int x) <= x)%Q.
Proof.
  intros Hx. rewrite py_int_floor by done.
  pose proof (Qlt_floor x) as Hlt. pose proof (Qfloor_le x) as Hle.
  rewrite inject_Z_plus in Hlt. change (inject_Z 1) with 1%Q in Hlt.
  split; lra.
Qed.

Lemma effective_fps_nonneg fps : (0 <= fps)%Q -> (0 <= effective_fps fps)%Q.
Proof. intros H. unfold effective_fps. by destruct (Qis_zero fps). Qed.



(** ** C9 *)

Lemma new_ops_eq frame tracks active unique :
  drop (length (drawn frame)) (drawn (draw_tracking_info frame tracks active unique).1)
  = concat (box_ops <$> filter (fun t => is_confirmed t = true) tracks)
    ++ [TextPeopleCount (size (active ∪ confirmed_ids tracks));
        TextTotalUnique (size unique)].
Proof. rewrite draw_tracking_info_eq. cbn. by rewrite drop_app_length. Qed.

Lemma box_op_of_confirmed op tracks :
  op ∈ concat (box_ops <$> filter (fun t => is_confirmed t = true) tracks) ->
  exists t, t ∈ tracks /\ is_confirmed t = true /\ op ∈ box_ops t.
Proof.
  rewrite list_elem_of_In, in_concat. intros (ops & Hops & Hop).
  apply list_elem_of_In in Hops, Hop.
  apply list_elem_of_fmap in Hops as (t & -> & Ht).
  apply list_elem_of_filter in Ht as [Hc Ht]. eauto.
Qed.

Lemma drawn_op_of_confirmed frame tracks active unique op :
  op ∈ drop (length (drawn frame))
         (drawn (draw_tracking_info frame tracks active unique).1) ->
  (exists t, t ∈ tracks /\ is_confirmed t = true /\ op ∈ box_ops t) \/
  op = TextPeopleCount (size (active ∪ confirmed_ids tracks)) \/
  op = TextTotalUnique (size unique).
Proof.
  rewrite new_ops_eq, elem_of_app. intros [H|H].
  - left. by apply box_op_of_confirmed.
  - right. sets.
Qed.

Lemma label_of_confirmed frame tracks active unique id x y :
  TextID id x y ∈ drop (length (drawn frame))
                    (drawn (draw_tracking_info frame tracks active unique).1) ->
  exists t, t ∈ tracks /\ is_confirmed t = true /\ track_id t = id.
Proof.
  intros [(t & Ht & Hc & Hop)|[?|?]]%drawn_op_of_confirmed; [|done..].
  exists t. repeat split; [done..|]. unfold box_ops in Hop.
  destruct (to_ltrb t) as [[[[l t'] r] b]|]; sets.
Qed.

(** C9, amended. In [draw_tracking_info] the loop over the tracks skips
    every track that is not confirmed, as the counting loop does: what a
    call draws is the rectangle and the ID label of each confirmed track
    that has a box, then the two counters. So every rectangle and every ID
    label drawn belongs to a confirmed track of the list, and every
    identity labelled is in the set the counting loop builds from the same
    list. *)
Theorem only_confirmed_tracks_are_drawn frame tracks active_ids unique_ids0 :
  let frame' := (draw_tracking_info frame tracks active_ids unique_ids0).1 in
  let new_ops := drop (length (drawn frame)) (drawn frame') in
  drawn frame' = drawn frame ++ new_ops /\
  new_ops = concat (box_ops <$> filter (fun t => is_confirmed t = true) tracks)
            ++ [TextPeopleCount (size (active_ids ∪ confirmed_ids tracks));
                TextTotalUnique (size unique_ids0)] /\
  (forall x1 y1 x2 y2, Rectangle x1 y1 x2 y2 ∈ new_ops ->
     exists t, t ∈ tracks /\ is_confirmed t = true /\
               Rectangle x1 y1 x2 y2 ∈ box_ops t) /\
  (forall id x y, TextID id x y ∈ new_ops ->
     exists t, t ∈ tracks /\ is_confirmed t = true /\ track_id t = id) /\
  (forall seen id x y, TextID id x y ∈ new_ops ->
     id ∈ foldl add_confirmed seen tracks).
Proof.
  intros frame' new_ops. repeat apply conj.
  - unfold new_ops, frame'. rewrite draw_tracking_info_eq. cbn.
    by rewrite drop_app_length.
  - apply new_ops_eq.
  - intros x1 y1 x2 y2 [H|[?|?]]%drawn_op_of_confirmed; done.
  - intros id x y. apply label_of_confirmed.
  - intros seen id x y (t & Ht & Hc & <-)%label_of_confirmed.
    rewrite foldl_add_confirmed. apply elem_of_union_r, elem_of_confirmed_ids. eauto.
Qed.

(** ** C10 *)

Lemma rendered_people_count_eq frame tracks active unique :
  rendered_people_count (draw_tracking_info frame tracks active unique).1
  = Some (size (active ∪ confirmed_ids tracks)).
Proof.
  rewrite draw_tracking_info_eq. unfold rendered_people_count. cbn.
  rewrite !omap_app. cbn. by rewrite app_assoc, last_snoc.
Qed.

Lemma size_confirmed_ids tracks :
  NoDup (track_id <$> tracks) ->
  size (confirmed_ids tracks) = length (filter (fun t => is_confirmed t = true) tracks).
Proof.
  intros Hnd. unfold confirmed_ids. rewrite size_list_to_set, length_fmap; [done|].
  eapply sublist_NoDup; [exact Hnd|]. apply fmap_sublist, sublist_filter.
Qed.

(** C10. In an iteration of the frame loop, [draw_tracking_info] is called
    with an empty [active_ids]; the call leaves in that set exactly the
    identities of the confirmed tracks the tracker returned for this
    frame, and the frame appended to the output carries their number as
    its "People Count", whatever the earlier frames were. That number is
    the number of confirmed tracks of the frame when the tracks have
    distinct identities. In general a call adds the identities of the
    confirmed tracks to the set it is given and renders the size of the
    result. *)
Theorem people_count_is_per_frame out thr frame st w st' w' vf :
  loop_body out thr frame st w = (inr st', w') ->
  fs w !! vw_path out = Some vf ->
  exists boxes ts tracks annotated,
    predict frame = inr boxes /\
    update_tracks (tracker st) (filter_boxes thr boxes) frame = inr (ts, tracks) /\
    draw_tracking_info frame tracks ∅ (unique_ids st')
      = (annotated, confirmed_ids tracks) /\
    fs w' !! vw_path out = Some (append_frame annotated vf) /\
    rendered_people_count annotated = Some (size (confirmed_ids tracks)) /\
    (NoDup (track_id <$> tracks) ->
     rendered_people_count annotated
     = Some (length (filter (fun t => is_confirmed t = true) tracks))) /\
    (forall f active unique,
       (draw_tracking_info f tracks active unique).2 = active ∪ confirmed_ids tracks /\
       rendered_people_count (draw_tracking_info f tracks active unique).1
       = Some (size (active ∪ confirmed_ids tracks))).
Proof.
  intros Hb Hvf.
  apply loop_body_inr in Hb as (boxes & ts & tracks & Hp & Hu & -> & ->).
  exists boxes, ts, tracks. cbn [unique_ids].
  set (u := unique_ids st ∪ confirmed_ids tracks).
  pose proof (rendered_people_count_eq frame tracks ∅ u) as Hcount.
  assert (Hset : (draw_tracking_info frame tracks ∅ u).2 = confirmed_ids tracks).
  { rewrite draw_tracking_info_eq. cbn. sets. }
  rewrite (left_id_L ∅ (∪)) in Hcount.
  destruct (draw_tracking_info frame tracks ∅ u) as [annotated active] eqn:Hd.
  cbn in Hcount, Hset. subst active. exists annotated. repeat apply conj.
  - done.
  - done.
  - done.
  - cbn. by rewrite lookup_alter_eq, Hvf.
  - done.
  - intros Hnd. by rewrite Hcount, size_confirmed_ids.
  - intros f active unique.
    split; [by rewrite draw_tracking_info_eq|apply rendered_people_count_eq].
Qed.

(** ** Further properties of the detector adapter *)

Lemma py_int_mono a b : (a <= b)%Q -> py_int a <= py_int b.
Proof.
  destruct a as [n1 d1], b as [n2 d2]. unfold Qle, py_int. cbn. intros H.
  rewrite <- (Z.quot_mul_cancel_r n1 (Z.pos d1) (Z.pos d2)) by lia.
  rewrite <- (Z.quot_mul_cancel_r n2 (Z.pos d2) (Z.pos d1)) by lia.
  rewrite (Z.mul_comm (Z.pos d2) (Z.pos d1)).
  apply Z.quot_le_mono; lia.
Qed.

Lemma filter_keeps_sublist thr1 thr2 boxes :
  (thr1 <= thr2)%Q ->
  List.filter (keeps thr2) boxes `sublist_of` List.filter (keeps thr1) boxes.
Proof.
  intros Hle. induction boxes as [|b boxes IH]; [done|]. cbn.
  destruct (keeps thr2 b) eqn:H2.
  - assert (keeps thr1 b = true) as ->.
    { apply keeps_spec in H2 as [Hc Hq]. apply keeps_spec. split; [done|].
      by eapply Qle_lt_trans. }
    by constructor.
  - destruct (keeps thr1 b); [by constructor|done].
Qed.

(** A higher threshold keeps a sub-list of what a lower one keeps, in the
    same order; every detection returned is labelled "person" and has a
    confidence above the threshold; and there are at most as many
    detections as boxes. *)
Theorem filter_boxes_antitone thr1 thr2 boxes :
  (thr1 <= thr2)%Q ->
  filter_boxes thr2 boxes `sublist_of` filter_boxes thr1 boxes /\
  Forall (fun d => det_class d = "person" /\ (thr1 < det_conf d)%Q)
    (filter_boxes thr1 boxes) /\
  (length (filter_boxes thr1 boxes) <= length boxes)%nat.
Proof.
  intros Hle. rewrite !filter_boxes_eq. repeat apply conj.
  - by apply fmap_sublist, filter_keeps_sublist.
  - apply Forall_fmap, Forall_forall. intros b Hb%list_elem_of_In.
    apply filter_In in Hb as [_ [_ Hq]%keeps_spec]. cbn.
    unfold to_detection. by destruct (box_xyxy b) as [[[x1 y1] x2] y2].
  - rewrite length_fmap. apply filter_length_le.
Qed.

(** The corner pair of a box becomes origin and size: the origin is the
    truncated top-left corner and origin plus size is the truncated
    bottom-right corner, so the size is the difference of the truncated
    corners (not the truncated difference). For corners in order the
    size is non-negative. The confidence is carried over unchanged. *)
Theorem to_detection_corners b x1 y1 x2 y2 :
  box_xyxy b = (x1, y1, x2, y2) ->
  (x1 <= x2)%Q -> (y1 <= y2)%Q ->
  exists x y w h,
    det_xywh (to_detection b) = (x, y, w, h) /\
    x = py_int x1 /\ y = py_int y1 /\
    x + w = py_int x2 /\ y + h = py_int y2 /\
    0 <= w /\ 0 <= h /\
    det_conf (to_detection b) = box_conf b.
Proof.
  intros Hb Hx Hy. unfold to_detection. rewrite Hb. cbn.
  apply py_int_mono in Hx, Hy.
  eexists _, _, _, _. repeat split; lia.
Qed.

(** ** Further properties of the codec repair step *)

(** On an input whose first frame does not decode, when [ffmpeg] exits
    with status 0, [fix_video_codec] returns the output path it was given;
    [ffmpeg] has run once, on the input and that output path; the disk is
    the one [ffmpeg] left; and the probe capture is not left open. *)
Theorem fix_video_codec_repairs input_path output_path w disk :
  readable w input_path = false ->
  ffmpeg (fs w) input_path output_path = Some (0, disk) ->
  exists w',
    fix_video_codec input_path output_path w = (inr output_path, w') /\
    fs w' = disk /\
    ffmpeg_runs w' = (input_path, output_path) :: ffmpeg_runs w /\
    open_caps w' = open_caps w /\
    open_writers w' = open_writers w.
Proof.
  intros Hr Hf. rewrite fix_video_codec_unreadable, Hf by done.
  by eexists.
Qed.

(** ** Further properties of the frame loop *)

Lemma loop_body_output out thr frame st w st' w' vf :
  loop_body out thr frame st w = (inr st', w') ->
  fs w !! vw_path out = Some vf ->
  exists annotated,
    fs w' !! vw_path out = Some (append_frame annotated vf) /\
    pixels annotated = pixels frame.
Proof.
  intros Hb Hvf.
  apply loop_body_inr in Hb as (boxes & ts & tracks & _ & _ & -> & ->).
  eexists. split; [cbn; by rewrite lookup_alter_eq, Hvf|].
  by rewrite draw_tracking_info_eq.
Qed.

Lemma video_loop_output out thr l st w st' w' vf :
  video_loop out thr l st w = (inr st', w') ->
  fs w !! vw_path out = Some vf ->
  exists written,
    fs w' !! vw_path out
      = Some (mkVideoFile (vf_opens vf) (vf_frames vf ++ written)
                (vf_width vf) (vf_height vf) (vf_fps vf)) /\
    pixels <$> written = pixels <$> l.
Proof.
  revert st w vf. induction l as [|f l IH]; intros st w vf; cbn [video_loop].
  - intros [= <- <-] Hvf. exists []. rewrite app_nil_r. by destruct vf.
  - intros H Hvf. apply bind_inr_inv in H as (st1 & w1 & Hb & H).
    destruct (loop_body_output _ _ _ _ _ _ _ _ Hb Hvf) as (a & Hw1 & Hpix).
    destruct (IH _ _ _ H Hw1) as (written & Hw' & Hpixs).
    exists (a :: written). cbn in Hw'. rewrite <- app_assoc in Hw'. cbn in Hw'.
    split; [done|]. cbn. by rewrite Hpix, Hpixs.
Qed.

(** On every frame the loop writes, "People Count" is at most "Total
    Unique", and "Total Unique" is the size of the set of identities after
    this frame. *)
Theorem people_count_at_most_total_unique out thr frame st w st' w' vf :
  loop_body out thr frame st w = (inr st', w') ->
  fs w !! vw_path out = Some vf ->
  exists annotated n m,
    fs w' !! vw_path out = Some (append_frame annotated vf) /\
    rendered_people_count annotated = Some n /\
    rendered_total_unique annotated = Some m /\
    (n <= m)%nat /\
    m = size (unique_ids st').
Proof.
  intros Hb Hvf.
  apply loop_body_inr in Hb as (boxes & ts & tracks & _ & _ & -> & ->).
  eexists _, _, _. split; [cbn; by rewrite lookup_alter_eq, Hvf|].
  split; [apply rendered_people_count_eq|].
  split.
  { rewrite draw_tracking_info_eq. unfold rendered_total_unique. cbn.
    rewrite !omap_app. cbn. by rewrite app_assoc, last_snoc. }
  cbn. split; [|done]. apply subseteq_size. sets.
Qed.

(** ** Further properties of [process_video] *)

Lemma fix_video_codec_path input_path output_path w video_path w1 :
  fix_video_codec input_path output_path w = (inr video_path, w1) ->
  (video_path = input_path /\ w1 = w) \/
  (video_path = output_path /\ readable w input_path = false).
Proof.
  destruct (readable w input_path) eqn:Hr.
  - rewrite fix_video_codec_readable by done. intros [= <- <-]. by left.
  - rewrite fix_video_codec_unreadable by done.
    destruct (ffmpeg _ _ _) as [[code disk]|]; [|discriminate].
    destruct (code =? 0); [|discriminate]. intros [= <- <-]. by right.
Qed.

Lemma cleaned_disk input_path video_path output_path w p :
  p <> video_path ->
  fs (cleaned input_path video_path output_path w) !! p = fs w !! p.
Proof.
  intros Hp. unfold cleaned, released. case_decide; cbn; [done|].
  by rewrite lookup_delete_ne.
Qed.

Lemma process_video_output_aux input_path output_path thr w res w' :
  process_video input_path output_path thr w = (inr res, w') ->
  input_path <> output_path ->
  str_replace output_path ".mp4" "_fixed.mp4" <> output_path ->
  exists video_path w1 source written,
    fix_video_codec input_path (str_replace output_path ".mp4" "_fixed.mp4") w
      = (inr video_path, w1) /\
    fs w1 !! video_path = Some source /\
    fs w' !! output_path = Some written /\
    pixels <$> vf_frames written = pixels <$> vf_frames source /\
    vf_width written = vf_width source /\
    vf_height written = vf_height source /\
    vf_fps written = vf_fps source /\
    total_frames res = Z.of_nat (length (vf_frames written)).
Proof.
  intros Hrun Hin Hfixed. rewrite process_video_eq in Hrun.
  destruct (fix_video_codec _ _ w) as [[e|video_path] w1] eqn:Hfix; [discriminate|].
  destruct (fs w1 !! video_path) as [source|] eqn:Hsrc; [|discriminate].
  destruct (vf_opens source); [|discriminate].
  destruct (video_loop _ _ _ _ _) as [[e|st] w2] eqn:Hl; [discriminate|].
  injection Hrun as <- <-.
  assert (Hvp : output_path <> video_path).
  { destruct (fix_video_codec_path _ _ _ _ _ Hfix) as [[-> _]|[-> _]]; congruence. }
  destruct (video_loop_output _ _ _ _ _ _ _
              (mkVideoFile true [] (vf_width source) (vf_height source) (vf_fps source))
              Hl) as (frames & Hout & Hpix).
  { cbn. apply lookup_insert_eq. }
  cbn in Hout. exists video_path, w1, source. eexists.
  rewrite cleaned_disk by done. split; [done|]. split; [done|].
  split; [exact Hout|]. cbn. repeat split; [done|].
  apply video_loop_inr in Hl as [-> _]. cbn.
  apply (f_equal length) in Hpix. rewrite !length_fmap in Hpix. lia.
Qed.


Lemma process_video_readable_touches_only_output_aux
    input_path output_path thr w r w' :
  readable w input_path = true ->
  process_video input_path output_path thr w = (r, w') ->
  ffmpeg_runs w' = ffmpeg_runs w /\
  (forall p, p <> output_path -> fs w' !! p = fs w !! p).
Proof.
  intros Hr. rewrite process_video_eq, fix_video_codec_readable by done.
  destruct (fs w !! input_path) as [vf|] eqn:Hvf; [|by intros [= <- <-]].
  destruct (vf_opens vf); [|by intros [= <- <-]].
  destruct (video_loop _ _ _ _ _) as [[e|st] w2] eqn:Hl; intros [= <- <-].
  - pose proof (video_loop_handles _ _ _ _ _ _ _ Hl) as (_ & _ & Hruns & _).
    split; [done|]. intros p Hp.
    rewrite (video_loop_disk _ _ _ _ _ _ _ p Hl) by done.
    cbn. by rewrite lookup_insert_ne.
  - pose proof (video_loop_handles _ _ _ _ _ _ _ Hl) as (_ & _ & Hruns & _).
    unfold cleaned. rewrite decide_True by done. split; [done|]. intros p Hp.
    cbn. rewrite (video_loop_disk _ _ _ _ _ _ _ p Hl) by done.
    cbn. by rewrite lookup_insert_ne.
Qed.

(** On a readable input, [process_video] never runs [ffmpeg] and changes
    no file other than the output file, whether it returns or raises; in
    particular the input file is kept as it is when it is not the output
    path. *)
Theorem process_video_readable_touches_only_output
    input_path output_path thr w r w' :
  readable w input_path = true ->
  process_video input_path output_path thr w = (r, w') ->
  ffmpeg_runs w' = ffmpeg_runs w /\
  (forall p, p <> output_path -> fs w' !! p = fs w !! p).
Proof. apply process_video_readable_touches_only_output_aux. Qed.

Lemma replace_from_no_occurrence old new s :
  occurs old s = false -> replace_from old new 0 s = s.
Proof.
  induction s as [|c s IH]; [done|]. cbn [occurs replace_from].
  intros [Hp Ho]%orb_false_iff. rewrite Hp. f_equal. by apply IH.
Qed.

(** When the output path does not contain ".mp4", the path of the
    repaired copy is the output path itself. If the input then needs the
    codec repair, a run that returns has deleted its own output file. *)
Theorem process_video_deletes_output_without_mp4
    input_path output_path thr w res w' :
  occurs ".mp4" output_path = false ->
  readable w input_path = false ->
  input_path <> output_path ->
  process_video input_path output_path thr w = (inr res, w') ->
  str_replace output_path ".mp4" "_fixed.mp4" = output_path /\
  ffmpeg_runs w' = (input_path, output_path) :: ffmpeg_runs w /\
  fs w' !! output_path = None.
Proof.
  intros Hocc Hr Hne.
  assert (Hfixed : str_replace output_path ".mp4" "_fixed.mp4" = output_path)
    by by apply replace_from_no_occurrence.
  rewrite process_video_eq, Hfixed, fix_video_codec_unreadable by done.
  destruct (ffmpeg _ _ _) as [[code disk]|]; [|discriminate].
  destruct (code =? 0); [|discriminate]. cbn [fs set_fs log_ffmpeg].
  destruct (disk !! output_path) as [vf|]; [|discriminate].
  destruct (vf_opens vf); [|discriminate].
  destruct (video_loop _ _ _ _ _) as [[e|st] w2] eqn:Hl; [discriminate|].
  intros [= <- <-].
  pose proof (video_loop_handles _ _ _ _ _ _ _ Hl) as (_ & _ & Hruns & _).
  split; [done|]. unfold cleaned. rewrite decide_False by congruence.
  split; [done|]. cbn. apply lookup_delete_eq.
Qed.

(** ** Further properties of [process_camera] *)

(** With the camera present, [process_camera] releases the capture and
    the writer when it returns, and leaves both open when it raises (an
    exception of the detector or the tracker in the frame loop). *)
Theorem process_camera_handles camera_index output_path duration thr w cam r w' :
  cameras w !! camera_index = Some cam ->
  process_camera camera_index output_path duration thr w = (r, w') ->
  match r with
  | inr _ =>
      open_caps w' = open_caps w /\ open_writers w' = open_writers w
  | inl _ =>
      open_caps w' = Device camera_index :: open_caps w /\
      open_writers w' = output_path :: open_writers w
  end.
Proof.
  intros Hcam. rewrite process_camera_eq, Hcam. cbn zeta.
  destruct (video_loop _ _ _ _ _) as [[e|st] w2] eqn:Hl; intros [= <- <-];
    pose proof (video_loop_handles _ _ _ _ _ _ _ Hl) as (Hc & Hw & _);
    cbn in Hc, Hw.
  - done.
  - unfold released. cbn. by rewrite Hc, Hw, !remove_first_head.
Qed.

Lemma process_camera_output_aux camera_index output_path duration thr w cam r w' :
  cameras w !! camera_index = Some cam ->
  process_camera camera_index output_path duration thr w = (r, w') ->
  ffmpeg_runs w' = ffmpeg_runs w /\
  (forall p, p <> output_path -> fs w' !! p = fs w !! p) /\
  (forall res, r = inr res ->
     exists written,
       fs w' !! output_path = Some written /\
       vf_width written = cam_width cam /\
       vf_height written = cam_height cam /\
       vf_fps written = effective_fps (cam_fps cam) /\
       total_frames res = Z.of_nat (length (vf_frames written)) /\
       pixels <$> vf_frames written
       = pixels <$> camera_frames (cam_feed cam) 0 (length (vf_frames written))).
Proof.
  intros Hcam. rewrite process_camera_eq, Hcam. cbn zeta.
  set (n := Z.to_nat (py_int (inject_Z duration * effective_fps (cam_fps cam)))).
  destruct (video_loop _ _ _ _ _) as [[e|st] w2] eqn:Hl; intros [= <- <-];
    pose proof (video_loop_handles _ _ _ _ _ _ _ Hl) as (_ & _ & Hruns & _).
  - split; [done|]. split; [|done]. intros p Hp.
    rewrite (video_loop_disk _ _ _ _ _ _ _ p Hl) by done.
    cbn. by rewrite lookup_insert_ne.
  - split; [done|]. split.
    + intros p Hp. cbn. rewrite (video_loop_disk _ _ _ _ _ _ _ p Hl) by done.
      cbn. by rewrite lookup_insert_ne.
    + intros res [= <-].
      destruct (video_loop_output _ _ _ _ _ _ _
                  (mkVideoFile true [] (cam_width cam) (cam_height cam)
                     (effective_fps (cam_fps cam))) Hl)
        as (frames & Hout & Hpix); [cbn; apply lookup_insert_eq|].
      cbn in Hout. eexists. split; [exact Hout|]. cbn.
      assert (Hlen : length frames = length (camera_frames (cam_feed cam) 0 n)).
      { apply (f_equal length) in Hpix. by rewrite !length_fmap in Hpix. }
      repeat split; [done..| |].
      * apply video_loop_inr in Hl as [-> _]. cbn. lia.
      * rewrite Hpix, Hlen. f_equal.
        rewrite (camera_frames_take (cam_feed cam) 0
                   (length (camera_frames (cam_feed cam) 0 n)) n)
          by apply camera_frames_length_le.
        by rewrite firstn_all.
Qed.


Lemma py_int_nonpos x : (x <= 0)%Q -> py_int x <= 0.
Proof. intros H. by apply py_int_mono in H. Qed.


Lemma effective_fps_pos fps : (0 <= fps)%Q -> (0 < effective_fps fps)%Q.
Proof.
  intros H. unfold effective_fps, Qis_zero.
  destruct (Qeq_bool fps 0) eqn:E; [done|].
  apply Qle_lteq in H as [H|H]; [done|].
  apply Qeq_bool_neq in E. by destruct E.
Qed.

Lemma process_camera_duration_bound_aux
    camera_index output_path duration thr w cam res w' :
  cameras w !! camera_index = Some cam ->
  0 <= duration ->
  (0 <= cam_fps cam)%Q ->
  process_camera camera_index output_path duration thr w = (inr res, w') ->
  exists d, duration_seconds res = Some d /\
            (0 <= d)%Q /\ (d <= inject_Z duration)%Q.
Proof.
  intros Hcam Hd Hfps Hrun.
  destruct (process_camera_inr _ _ _ _ _ _ _ _ Hcam Hrun) as [Hn Hdur].
  cbn zeta in Hn, Hdur.
  set (fps := effective_fps (cam_fps cam)) in *.
  set (x := (inject_Z duration * fps)%Q) in *.
  pose proof (effective_fps_pos _ Hfps) as Hpos. fold fps in Hpos.
  assert (Hx : (0 <= x)%Q).
  { apply Qmult_le_0_compat; [unfold Qle; cbn; lia|by apply Qlt_le_weak]. }
  pose proof (py_int_within_one _ Hx) as [_ Hint].
  pose proof (camera_frames_length_le (cam_feed cam) 0 (Z.to_nat (py_int x))) as Hle.
  assert (Hmax : 0 <= py_int x).
  { rewrite py_int_floor by done. by apply Qfloor_resp_le in Hx. }
  eexists. split; [exact Hdur|]. split.
  - apply Qle_shift_div_l; [done|]. rewrite Qmult_0_l.
    rewrite Hn. unfold Qle. cbn. lia.
  - apply Qle_shift_div_r; [done|]. fold x.
    eapply Qle_trans; [|exact Hint]. rewrite <- Zle_Qle. lia.
Qed.


(** ** What the count counts *)

Lemma size_list_to_set_le (l : list Z) :
  (size (list_to_set l : gset Z) <= length l)%nat.
Proof.
  induction l as [|x l IH]; [done|]. cbn.
  rewrite size_union_alt, size_singleton.
  assert (size (list_to_set l ∖ {[x]} : gset Z) <= size (list_to_set l : gset Z))%nat
    by (apply subseteq_size; sets).
  lia.
Qed.

Lemma video_loop_unique_ids out thr l st w st' w' :
  video_loop out thr l st w = (inr st', w') ->
  length (tracker_outputs thr l (tracker st)) = length l /\
  unique_ids st'
  = unique_ids st ∪ ⋃ (confirmed_ids <$> tracker_outputs thr l (tracker st)).
Proof.
  revert st w. induction l as [|f l IH]; intros st w; cbn [video_loop].
  - intros [= <- <-]. split; [done|]. cbn. sets.
  - intros H. apply bind_inr_inv in H as (st1 & w1 & Hb & H).
    apply loop_body_inr in Hb as (boxes & ts & tracks & Hp & Hu & -> & _).
    apply IH in H as [Hlen Hids]. cbn [tracker unique_ids] in Hlen, Hids.
    cbn [tracker_outputs]. rewrite Hp, Hu. cbn. split; [by rewrite Hlen|].
    rewrite Hids. sets.
Qed.


(** When [process_camera] returns, the tracker has been fed the frames
    read from the camera once each, in order, and [total_unique_people]
    is the number of identities that were the identity of a confirmed
    track in the tracker's answer for at least one of them. *)
Theorem process_camera_counts_confirmed
    camera_index output_path duration thr w cam res w' :
  cameras w !! camera_index = Some cam ->
  process_camera camera_index output_path duration thr w = (inr res, w') ->
  let frames := camera_frames (cam_feed cam) 0 (Z.to_nat (total_frames res)) in
  let outputs := tracker_outputs thr frames initialize_tracker in
  length frames = Z.to_nat (total_frames res) /\
  length outputs = length frames /\
  total_unique_people res = size (⋃ (confirmed_ids <$> outputs)).
Proof.
  intros Hcam Hrun.
  destruct (process_camera_inr _ _ _ _ _ _ _ _ Hcam Hrun) as [Hn _].
  cbn zeta in Hn. rewrite process_camera_eq, Hcam in Hrun. cbn zeta in Hrun.
  set (n := Z.to_nat (py_int (inject_Z duration * effective_fps (cam_fps cam)))) in *.
  destruct (video_loop _ _ _ _ _) as [[e|st] w2] eqn:Hl; [discriminate|].
  injection Hrun as <- <-. cbn [total_frames total_unique_people] in *.
  rewrite Hn, Nat2Z.id.
  rewrite (camera_frames_take (cam_feed cam) 0
             (length (camera_frames (cam_feed cam) 0 n)) n)
    by apply camera_frames_length_le.
  rewrite firstn_all.
  apply video_loop_unique_ids in Hl as [Hlen Hids]. cbn in Hlen, Hids.
  cbn zeta. split; [done|]. split; [done|].
  by rewrite Hids, (left_id_L ∅ (∪)).
Qed.

(** ** Properties of the API layer *)

(** String concatenation on a known first character. *)
Ltac str_red :=
  repeat first
    [ progress change (String ?c ?p +:+ ?b) with (String c (p +:+ b)) in *
    | progress change (EmptyString +:+ ?b) with b in * ].

Lemma replace_suffix_mp4 p :
  has_char dot p = false ->
  str_replace (p +:+ ".mp4") ".mp4" "_fixed.mp4" = p +:+ "_fixed.mp4".
Proof.
  unfold str_replace. induction p as [|c p IH]; [done|].
  cbn [has_char]. intros [Hc Hp]%orb_false_iff. str_red.
  cbn [replace_from is_prefix].
  assert (E : Ascii.eqb (Ascii.Ascii false true true true false true false false) c
              = false) by (rewrite Ascii.eqb_sym; exact Hc).
  rewrite E. by rewrite IH.
Qed.

Lemma append_inj_l p a b : p +:+ a = p +:+ b -> a = b.
Proof. induction p as [|c p IH]; [done|]. str_red. intros [= H]. by apply IH. Qed.

Lemma has_char_append c a b : has_char c (a +:+ b) = has_char c a || has_char c b.
Proof.
  induction a as [|x a IH]; [done|]. str_red. cbn [has_char].
  by rewrite IH, orb_assoc.
Qed.

(** On an input that needs the codec repair, for an output path [p.mp4]
    with no dot in [p], [process_video] runs [ffmpeg] exactly once,
    whatever happens next, and its output argument is [p_fixed.mp4],
    beside the output file. *)
Theorem process_video_repair_path input_path p thr w r w' :
  has_char dot p = false ->
  readable w input_path = false ->
  process_video input_path (p +:+ ".mp4") thr w = (r, w') ->
  ffmpeg_runs w' = (input_path, p +:+ "_fixed.mp4") :: ffmpeg_runs w.
Proof.
  intros Hp Hr. rewrite process_video_eq, replace_suffix_mp4 by done.
  rewrite fix_video_codec_unreadable by done.
  destruct (ffmpeg _ _ _) as [[code disk]|]; [|by intros [= <- <-]].
  destruct (code =? 0); [|by intros [= <- <-]].
  cbn [fs set_fs log_ffmpeg].
  destruct (disk !! (p +:+ "_fixed.mp4")) as [vf|]; [|by intros [= <- <-]].
  destruct (vf_opens vf); [|by intros [= <- <-]].
  destruct (video_loop _ _ _ _ _) as [[e|st] w2] eqn:Hl; intros [= <- <-];
    pose proof (video_loop_handles _ _ _ _ _ _ _ Hl) as (_ & _ & Hruns & _);
    [done|].
  unfold cleaned, released. by case_decide.
Qed.

Lemma os_path_join_relative dir name :
  is_prefix "/" name = false -> dir <> EmptyString -> ends_with_slash dir = false ->
  os_path_join dir name = dir +:+ "/" +:+ name.
Proof.
  intros Hname Hdir Hslash. unfold os_path_join. rewrite Hname, Hslash.
  by destruct dir.
Qed.

Lemma download_output_present name w vf :
  is_prefix "/" name = false ->
  fs w !! ("outputs/" +:+ name) = Some vf ->
  download_output name w
  = (inr (mkFileResponse ("outputs/" +:+ name) "video/mp4" name), w).
Proof.
  intros Hname Hvf. unfold download_output.
  rewrite os_path_join_relative by done.
  change (OUTPUT_DIR +:+ "/" +:+ name) with ("outputs/" +:+ name).
  by rewrite Hvf.
Qed.

Section Api_facts.

Variable lower : string -> string.

(** [track_video] answers 400 and leaves the disk, the handles and the
    subprocess log as they are when the upload has no file name or an
    empty one, or when the lower-cased extension of the name is not one of
    ".mp4", ".avi", ".mov", ".mkv"; nothing is saved and [process_video]
    does not run. *)
Theorem track_video_rejects timestamp upload thr w :
  (filename upload = None \/ filename upload = Some EmptyString \/
   exists name, filename upload = Some name /\
                lower (splitext name).2 ∉ allowed_extensions) ->
  exists d, track_video lower timestamp upload thr w = (inl (mkHTTP 400 d), w) /\
            (d = NoFileProvided \/ d = InvalidFileFormat).
Proof.
  unfold track_video. intros [->|[->|(name & -> & Hext)]].
  - eexists. split; [done|by left].
  - eexists. split; [done|by left].
  - destruct name as [|c name]; [eexists; split; [done|by left]|].
    rewrite bool_decide_false by done. cbn. eexists. split; [done|by right].
Qed.

Lemma track_video_accepts timestamp name thr w :
  name <> EmptyString ->
  lower (splitext name).2 ∈ allowed_extensions ->
  forall content,
  track_video lower timestamp (mkUpload (Some name) content) thr w =
  let file_ext := lower (splitext name).2 in
  let input_path := "uploads/input_" +:+ timestamp +:+ file_ext in
  let output_filename := "output_" +:+ timestamp +:+ ".mp4" in
  match process_video input_path ("outputs/" +:+ output_filename) thr
          (set_fs (insert input_path content) w) with
  | (inr result, w1) =>
      (inr (mkVideoResponse true "Video processed successfully" output_filename
              (total_unique_people result) (total_frames result)
              ("/api/download/" +:+ output_filename)),
       set_fs (delete input_path) w1)
  | (inl e, w1) =>
      (inl (mkHTTP 500 (ProcessingError e)),
       set_fs (delete ("outputs/" +:+ output_filename))
         (set_fs (delete input_path) w1))
  end.
Proof.
  intros Hname Hext content. unfold track_video. cbn [filename file].
  destruct name as [|c name]; [done|].
  rewrite bool_decide_true by done. cbn [negb]. reflexivity.
Qed.

Lemma track_video_inv timestamp upload thr w r w' :
  track_video lower timestamp upload thr w = (r, w') ->
  (exists d, r = inl (mkHTTP 400 d) /\ w' = w) \/
  (exists name, filename upload = Some name /\ name <> EmptyString /\
                lower (splitext name).2 ∈ allowed_extensions).
Proof.
  destruct upload as [[name|] content]; [|intros [= <- <-]; left; by eexists].
  destruct name as [|c name]; [intros [= <- <-]; left; by eexists|].
  destruct (decide (lower (splitext (String c name)).2 ∈ allowed_extensions))
    as [Hin|Hout].
  - intros _. right. by exists (String c name).
  - intros H. left. unfold track_video in H. cbn [filename] in H.
    rewrite bool_decide_false in H by done. cbn in H. injection H as <- <-.
    by eexists.
Qed.

Lemma allowed_no_slash ext : ext ∈ allowed_extensions -> is_prefix "/" ext = false.
Proof.
  unfold allowed_extensions. rewrite !elem_of_cons, elem_of_nil.
  intros [->|[->|[->|[->|[]]]]]; reflexivity.
Qed.


(** When [process_video] raises inside [track_video], the answer is 500
    with the exception in its detail, and neither the uploaded input nor
    the output file is on disk afterwards. Every other path is left as
    [process_video] left it, so a repaired copy written beside the output
    stays on disk. Apart from that a failure of [track_video] is a 400
    that changes nothing. *)
Theorem track_video_failure timestamp upload thr w h w' :
  track_video lower timestamp upload thr w = (inl h, w') ->
  (status_code h = 400 /\ w' = w) \/
  exists name e w1,
    filename upload = Some name /\
    let input_path := "uploads/input_" +:+ timestamp +:+ lower (splitext name).2 in
    let output_path := "outputs/output_" +:+ timestamp +:+ ".mp4" in
    process_video input_path output_path thr
      (set_fs (insert input_path (file upload)) w) = (inl e, w1) /\
    h = mkHTTP 500 (ProcessingError e) /\
    fs w' !! input_path = None /\
    fs w' !! output_path = None /\
    (forall p, p <> input_path -> p <> output_path -> fs w' !! p = fs w1 !! p) /\
    open_caps w' = open_caps w1 /\ open_writers w' = open_writers w1.
Proof.
  intros Hrun.
  destruct (track_video_inv _ _ _ _ _ _ Hrun) as [(d & [= ->] & ->)|(name & Hn & Hne & Hext)];
    [by left|right].
  destruct upload as [fname content]. cbn in Hn. subst fname.
  rewrite track_video_accepts in Hrun by done. cbn zeta in Hrun.
  change ("outputs/" +:+ "output_" +:+ timestamp +:+ ".mp4")
    with ("outputs/output_" +:+ timestamp +:+ ".mp4") in Hrun.
  destruct (process_video _ _ _ _) as [[e|result] w1] eqn:Hpv; [|discriminate].
  injection Hrun as <- <-. exists name, e, w1. cbn zeta. cbn [file].
  split; [done|]. split; [exact Hpv|]. split; [done|].
  split.
  { cbn. rewrite lookup_delete_ne by (intros H; str_red; discriminate H).
    apply lookup_delete_eq. }
  split; [cbn; apply lookup_delete_eq|].
  split; [|done].
  intros p Hp1 Hp2. cbn. by rewrite !lookup_delete_ne.
Qed.

End Api_facts.



(** ** What an exception leaves behind *)

End Pipeline.

(** ** The pipeline on the test doubles *)

Abbreviation demo_video :=
  (process_video Demo.predict (Z * nat)%type Demo.initialize_tracker
     Demo.update_tracks Demo.ffmpeg).
Abbreviation demo_camera :=
  (process_camera Demo.predict (Z * nat)%type Demo.initialize_tracker
     Demo.update_tracks).
Abbreviation demo_body :=
  (loop_body Demo.predict (Z * nat)%type Demo.update_tracks).

Lemma demo_conf_le_1 frame boxes b :
  Demo.predict frame = inr boxes -> b ∈ boxes -> (box_conf b <= 1)%Q.
Proof.
  unfold Demo.predict. destruct (pixels frame) as [|row rows]; [discriminate|].
  intros H Hb.
  assert (boxes = omap Demo.row_box (row :: rows)) as -> by congruence.
  apply list_elem_of_omap in Hb as (r & _ & Hr).
  destruct r as [|[[cls percent] x] r]; [discriminate|].
  injection Hr as <-. unfold Qle. cbn. lia.
Qed.

Lemma demo_idle_step (s : Z * nat) frame s' tracks :
  s.2 = O -> Demo.update_tracks s [] frame = inr (s', tracks) ->
  s'.2 = O /\ forall t, t ∈ tracks -> is_confirmed t = false.
Proof.
  destruct s as [id hits]. cbn. intros -> [= <- <-]. split; [done|].
  intros t Ht. by apply not_elem_of_nil in Ht.
Qed.

(** A person seen in frames 1 and 2 is confirmed in frame 2; the track is
    deleted in frame 3 and the person stays counted. *)
Example deleted_track_stays_counted :
  (demo_video "in.mp4" "out.mp4" (35 # 100)
     (Demo.video_world "in.mp4"
        (Demo.clip [Demo.person_frame; Demo.person_frame;
                    Demo.empty_frame; Demo.empty_frame]))).1
  = inr (mkResult 1 4 None).
Proof. vm_compute. reflexivity. Qed.

(** A camera whose read number 40 fails: the run ends normally with the
    40 frames read, well before the 150 of its 5 seconds. *)
Example camera_read_failure_stops_early :
  (demo_camera 0 "cam.mp4" 5 (35 # 100)
     (Demo.camera_world (Demo.failing_webcam 40))).1
  = inr (mkResult 1 40 (Some (40 # 30))).
Proof. vm_compute. reflexivity. Qed.

(** A tentative track with a box gets neither a rectangle nor a label. *)
Example tentative_track_not_drawn :
  draw_tracking_info Demo.person_frame
    [mkTrack 7 Tentative (Some (10, 20, 110, 220)%Q)] ∅ ∅
  = (mkFrame (pixels Demo.person_frame) [TextPeopleCount 0; TextTotalUnique 0], ∅).
Proof. vm_compute. reflexivity. Qed.

Example py_int_pos : py_int (7 # 2) = 3.
Proof. reflexivity. Qed.

Example py_int_neg : py_int (-7 # 2) = -3.
Proof. reflexivity. Qed.

Example replace_mp4 :
  str_replace "outputs/o.mp4" ".mp4" "_fixed.mp4" = "outputs/o_fixed.mp4".
Proof. reflexivity. Qed.

Example replace_none : str_replace "outputs/o.avi" ".mp4" "_fixed.mp4" = "outputs/o.avi".
Proof. reflexivity. Qed.

(** *** C2 on the test doubles *)

Lemma threshold_is_exclusive_witness :
  exists res w',
    demo_video "in.mp4" "out.mp4" 1
      (Demo.video_world "in.mp4" (Demo.clip [Demo.person_frame; Demo.person_frame]))
    = (inr res, w') /\
    total_unique_people res = O.
Proof.
  pose proof (threshold_is_exclusive Demo.predict _ Demo.initialize_tracker
                Demo.update_tracks Demo.ffmpeg demo_conf_le_1
                (fun s => s.2 = O) eq_refl demo_idle_step)
    as (_ & _ & _ & _ & Hvideo & _).
  assert (Hrun : exists res w',
    demo_video "in.mp4" "out.mp4" 1
      (Demo.video_world "in.mp4" (Demo.clip [Demo.person_frame; Demo.person_frame]))
    = (inr res, w')) by (eexists _, _; vm_compute; reflexivity).
  destruct Hrun as (res & w' & Hrun). exists res, w'.
  split; [exact Hrun|exact (Hvideo _ _ _ _ _ Hrun)].
Defined.

(** *** C3 on the test doubles *)



(** *** C4 on the test doubles *)

(** An input that needs the codec repair and whose second frame makes the
    detector raise: the exception reaches the caller after one frame has
    been written, the capture and the writer are still open and the
    repaired copy is still on disk. *)
Lemma exception_in_loop_skips_cleanup :
  exists w',
    demo_video "in.avi" "out.mp4" (35 # 100)
      (Demo.video_world "in.avi"
         (Demo.unreadable_clip [Demo.person_frame; Demo.broken_frame]))
    = (inl (CollaboratorError "empty frame"), w') /\
    (length <$> (vf_frames <$> fs w' !! "out.mp4")) = Some 1%nat /\
    open_caps w' = [File "out_fixed.mp4"] /\
    open_writers w' = ["out.mp4"] /\
    fs w' !! "out_fixed.mp4" <> None.
Proof.
  eexists. split; [vm_compute; reflexivity|].
  repeat split; [vm_compute; discriminate].
Qed.

Lemma cleanup_only_on_normal_exit_witness :
  exists res w',
    demo_video "in.avi" "out.mp4" (35 # 100)
      (Demo.video_world "in.avi"
         (Demo.unreadable_clip [Demo.person_frame; Demo.person_frame]))
    = (inr res, w') /\
    open_caps w' = [] /\ open_writers w' = [] /\
    fs w' !! "out_fixed.mp4" = None.
Proof.
  set (w := Demo.video_world "in.avi"
              (Demo.unreadable_clip [Demo.person_frame; Demo.person_frame])).
  assert (Hfix : exists w1,
    fix_video_codec Demo.ffmpeg "in.avi"
      (str_replace "out.mp4" ".mp4" "_fixed.mp4") w = (inr "out_fixed.mp4", w1) /\
    fs w1 !! "out_fixed.mp4"
      = Some (Demo.clip [Demo.person_frame; Demo.person_frame]))
    by (eexists; split; vm_compute; reflexivity).
  destruct Hfix as (w1 & Hfix & Hvf).
  pose proof (cleanup_only_on_normal_exit Demo.predict _ Demo.initialize_tracker
                Demo.update_tracks Demo.ffmpeg "in.avi" "out.mp4" (35 # 100)
                w "out_fixed.mp4" w1 _ Hfix Hvf eq_refl) as H.
  destruct (video_loop _ _ _ _ _ _ _ _) as [[e|st] w2].
  - destruct H as (Hrun & _). vm_compute in Hrun. discriminate Hrun.
  - destruct H as (res & w' & Hrun & Hc & Hw & Hdel).
    exists res, w'. repeat split; [exact Hrun|exact Hc|exact Hw|].
    apply Hdel. discriminate.
Defined.

(** *** C5 on the test doubles *)

Lemma fix_video_codec_pass_through_witness :
  let w := Demo.video_world "in.mp4" (Demo.clip [Demo.person_frame]) in
  readable w "in.mp4" = true /\
  fix_video_codec Demo.ffmpeg "in.mp4" "out_fixed.mp4" w = (inr "in.mp4", w) /\
  ffmpeg_runs (fix_video_codec Demo.ffmpeg "in.mp4" "out_fixed.mp4" w).2 = [].
Proof.
  intros w. split; [reflexivity|].
  destruct (fix_video_codec_pass_through Demo.ffmpeg "in.mp4" "out_fixed.mp4" w
              eq_refl) as (Hfix & _ & Hruns & _).
  split; [exact Hfix|exact Hruns].
Defined.

(** *** C6 on the test doubles *)

Lemma fix_video_codec_transcode_failure_witness :
  let w := Demo.video_world "in.avi" (Demo.unreadable_clip [Demo.person_frame]) in
  exists w',
    fix_video_codec Demo.no_ffmpeg "in.avi" "out_fixed.mp4" w
      = (inl FileNotFoundError, w') /\
    ffmpeg_runs w' = [("in.avi", "out_fixed.mp4")] /\
    process_video Demo.predict (Z * nat)%type Demo.initialize_tracker
      Demo.update_tracks Demo.no_ffmpeg "in.avi" "out.mp4" (35 # 100) w
      = (inl FileNotFoundError, w').
Proof.
  intros w.
  destruct (fix_video_codec_transcode_failure Demo.predict _ Demo.initialize_tracker
              Demo.update_tracks Demo.no_ffmpeg "in.avi" "out_fixed.mp4" w eq_refl)
    as (e & w' & Hfix & He & _ & Hruns & Hcaller).
  { intros disk. discriminate. }
  cbn in He. subst e. exists w'.
  repeat split; [exact Hfix|exact Hruns|]. by apply Hcaller.
Defined.

(** *** C7 on the test doubles *)

(** A path that does not exist, with an [ffmpeg] that exits with status 1
    on a missing input: the run fails with the error of the subprocess
    call, which is not a SourceUnavailable error. *)
Lemma nonexistent_path_fails_in_transcode :
  cannot_open (fs (Demo.world ∅ ∅)) "missing.mp4" = true /\
  (exists w',
     demo_video "missing.mp4" "out.mp4" (35 # 100) (Demo.world ∅ ∅)
     = (inl (CalledProcessError 1), w')) /\
  SourceUnavailable (CalledProcessError 1) = false /\
  ~ (exists e w',
       demo_video "missing.mp4" "out.mp4" (35 # 100) (Demo.world ∅ ∅) = (inl e, w') /\
       SourceUnavailable e = true).
Proof.
  split; [reflexivity|]. split; [eexists; vm_compute; reflexivity|].
  split; [reflexivity|].
  intros (e & w' & Hrun & He). vm_compute in Hrun.
  injection Hrun as <- _. discriminate He.
Qed.

Lemma unopenable_source_fails_without_sink_witness :
  demo_camera 0 "cam.mp4" 5 (35 # 100) (Demo.world ∅ ∅)
    = (inl (FailedToOpenCamera 0), Demo.world ∅ ∅) /\
  exists w',
    demo_video "missing.mp4" "out.mp4" (35 # 100) (Demo.world ∅ ∅)
      = (inl (CalledProcessError 1), w') /\
    open_writers w' = [] /\ fs w' = ∅.
Proof.
  assert (Hnocam : cameras (Demo.world ∅ ∅) !! 0 = None) by reflexivity.
  assert (Hnofile : cannot_open (fs (Demo.world ∅ ∅)) "missing.mp4" = true)
    by reflexivity.
  destruct (unopenable_source_fails_without_sink Demo.predict _
              Demo.initialize_tracker Demo.update_tracks Demo.ffmpeg
              0 "missing.mp4" "out.mp4" 5 (35 # 100) (Demo.world ∅ ∅)
              Hnocam Hnofile)
    as (Hcam & _ & e & w' & Hrun & He & _ & Hw & _ & Hfs).
  { intros disk. discriminate. }
  split; [exact Hcam|]. cbn in He. subst e. exists w'.
  repeat split; [exact Hrun|exact Hw|exact Hfs].
Defined.

(** *** C8 on the test doubles *)


(** *** C9 *)

(** No call of [draw_tracking_info] labels the identity of an unconfirmed
    track that the counting loop leaves out of the set. *)
Lemma no_label_for_an_uncounted_track :
  ~ exists frame tracks active_ids seen t x y,
      t ∈ tracks /\ is_confirmed t = false /\
      (track_id t ∉ foldl add_confirmed seen tracks) /\
      TextID (track_id t) x y
        ∈ drop (length (drawn frame))
            (drawn (draw_tracking_info frame tracks active_ids
                      (foldl add_confirmed seen tracks)).1).
Proof.
  intros (frame & tracks & active_ids & seen & t & x & y & _ & _ & Hout & Hin).
  apply label_of_confirmed in Hin as (t' & Ht' & Hc' & Hid).
  apply Hout. rewrite foldl_add_confirmed.
  apply elem_of_union_r, elem_of_confirmed_ids. eauto.
Qed.

(** *** C10 on the test doubles *)

Lemma people_count_is_per_frame_witness :
  let w := Demo.video_world "out.mp4" (Demo.clip []) in
  let st := mkLoop (Z * nat)%type (1, 1%nat) ∅ 1 in
  exists st' w' annotated,
    demo_body (mkWriter "out.mp4") (35 # 100) Demo.person_frame st w = (inr st', w') /\
    fs w' !! "out.mp4" = Some (append_frame annotated (Demo.clip [])) /\
    rendered_people_count annotated = Some 1%nat.
Proof.
  intros w st.
  assert (Hbody : exists st' w',
    demo_body (mkWriter "out.mp4") (35 # 100) Demo.person_frame st w = (inr st', w'))
    by (eexists _, _; vm_compute; reflexivity).
  destruct Hbody as (st' & w' & Hbody).
  assert (Hout : fs w !! vw_path (mkWriter "out.mp4") = Some (Demo.clip []))
    by reflexivity.
  destruct (people_count_is_per_frame Demo.predict _ Demo.update_tracks
              (mkWriter "out.mp4") (35 # 100) Demo.person_frame st w st' w'
              (Demo.clip []) Hbody Hout)
    as (boxes & ts & tracks & annotated & Hp & Hu & _ & Hfs & Hcount & _).
  exists st', w', annotated. repeat split; [exact Hbody|exact Hfs|].
  rewrite Hcount. vm_compute in Hp. injection Hp as <-.
  vm_compute in Hu. injection Hu as _ <-. reflexivity.
Defined.

(** ** The further properties on the test doubles *)

Abbreviation demo_loop :=
  (video_loop Demo.predict (Z * nat)%type Demo.update_tracks).
Abbreviation demo_track_video :=
  (track_video Demo.predict (Z * nat)%type Demo.initialize_tracker
     Demo.update_tracks Demo.ffmpeg DemoApi.lower).
Abbreviation demo_track_camera :=
  (track_camera Demo.predict (Z * nat)%type Demo.initialize_tracker
     Demo.update_tracks).

Example splitext_cases :
  splitext "Clip.MP4" = ("Clip", ".MP4") /\
  splitext ".bashrc" = (".bashrc", "") /\
  splitext "dir.d/file" = ("dir.d/file", "") /\
  splitext "a.b/c.tar.gz" = ("a.b/c.tar", ".gz") /\
  splitext "x." = ("x", ".").
Proof. repeat split. Qed.

Example os_path_join_cases :
  os_path_join "uploads" "a.mp4" = "uploads/a.mp4" /\
  os_path_join "uploads/" "a.mp4" = "uploads/a.mp4" /\
  os_path_join "uploads" "/tmp/a.mp4" = "/tmp/a.mp4" /\
  os_path_join "" "a.mp4" = "a.mp4".
Proof. repeat split. Qed.

Lemma filter_boxes_antitone_witness :
  let boxes := [mkBox 0 (9 # 10) (0, 0, 10, 10)%Q; mkBox 0 (4 # 10) (0, 0, 10, 10)%Q;
                mkBox 2 (9 # 10) (0, 0, 10, 10)%Q] in
  filter_boxes (5 # 10) boxes `sublist_of` filter_boxes (35 # 100) boxes /\
  length (filter_boxes (5 # 10) boxes) = 1%nat /\
  length (filter_boxes (35 # 100) boxes) = 2%nat.
Proof.
  intros boxes.
  assert (Hle : (35 # 100 <= 5 # 10)%Q) by (unfold Qle; cbn; lia).
  destruct (filter_boxes_antitone (35 # 100) (5 # 10) boxes Hle) as (Hsub & _ & _).
  split; [exact Hsub|]. split; reflexivity.
Defined.

Lemma to_detection_corners_witness :
  det_xywh (to_detection (mkBox 0 (9 # 10) (6 # 10, 15 # 10, 14 # 10, 99 # 10)%Q))
  = (0, 1, 1, 8).
Proof.
  destruct (to_detection_corners
              (mkBox 0 (9 # 10) (6 # 10, 15 # 10, 14 # 10, 99 # 10)%Q)
              (6 # 10) (15 # 10) (14 # 10) (99 # 10) eq_refl)
    as (x & y & w & h & Hd & -> & -> & Hw & Hh & _);
    [unfold Qle; cbn; lia..|].
  rewrite Hd. change (py_int (6 # 10)) with 0 in *.
  change (py_int (15 # 10)) with 1 in *. change (py_int (14 # 10)) with 1 in Hw.
  change (py_int (99 # 10)) with 9 in Hh.
  f_equal; [f_equal|]; lia.
Defined.

Lemma fix_video_codec_repairs_witness :
  let w := Demo.video_world "in.avi" (Demo.unreadable_clip [Demo.person_frame]) in
  exists w',
    fix_video_codec Demo.ffmpeg "in.avi" "out_fixed.mp4" w = (inr "out_fixed.mp4", w') /\
    ffmpeg_runs w' = [("in.avi", "out_fixed.mp4")] /\
    fs w' !! "out_fixed.mp4" = Some (Demo.clip [Demo.person_frame]).
Proof.
  intros w.
  assert (Hf : Demo.ffmpeg (fs w) "in.avi" "out_fixed.mp4"
               = Some (0, <["out_fixed.mp4" := Demo.clip [Demo.person_frame]]> (fs w)))
    by reflexivity.
  destruct (fix_video_codec_repairs Demo.ffmpeg "in.avi" "out_fixed.mp4" w _
              eq_refl Hf) as (w' & Hfix & Hdisk & Hruns & _).
  exists w'. split; [exact Hfix|]. split; [exact Hruns|].
  rewrite Hdisk. reflexivity.
Defined.

Lemma people_count_at_most_total_unique_witness :
  let w := Demo.video_world "out.mp4" (Demo.clip []) in
  let st := mkLoop (Z * nat)%type (4, 1%nat) {[ 1; 2; 3 ]} 9 in
  exists st' w' annotated,
    demo_body (mkWriter "out.mp4") (35 # 100) Demo.person_frame st w = (inr st', w') /\
    fs w' !! "out.mp4" = Some (append_frame annotated (Demo.clip [])) /\
    rendered_people_count annotated = Some 1%nat /\
    rendered_total_unique annotated = Some 4%nat.
Proof.
  intros w st.
  assert (Hbody : exists st' w',
    demo_body (mkWriter "out.mp4") (35 # 100) Demo.person_frame st w = (inr st', w'))
    by (eexists _, _; vm_compute; reflexivity).
  destruct Hbody as (st' & w' & Hbody).
  assert (Hout : fs w !! vw_path (mkWriter "out.mp4") = Some (Demo.clip []))
    by reflexivity.
  destruct (people_count_at_most_total_unique Demo.predict _ Demo.update_tracks
              (mkWriter "out.mp4") (35 # 100) Demo.person_frame st w st' w'
              (Demo.clip []) Hbody Hout)
    as (annotated & n & m & Hfs & Hn & Hm & _ & _).
  exists st', w', annotated. split; [exact Hbody|]. split; [exact Hfs|].
  vm_compute in Hbody. injection Hbody as <- <-.
  vm_compute in Hfs. injection Hfs as <-.
  split; reflexivity.
Defined.

Lemma demo_update_tracks_total s detections frame e :
  Demo.update_tracks s detections frame <> inl e.
Proof.
  destruct s as [id hits]. unfold Demo.update_tracks.
  destruct detections as [|d ?]; [by destruct hits|].
  by destruct (det_xywh d) as [[[? ?] ?] ?].
Qed.



Lemma process_video_readable_touches_only_output_witness :
  let w := Demo.world {[ "in.mp4" := Demo.clip [Demo.person_frame; Demo.broken_frame];
                         "other.mp4" := Demo.clip [] ]} ∅ in
  exists e w',
    demo_video "in.mp4" "out.mp4" (35 # 100) w = (inl e, w') /\
    ffmpeg_runs w' = [] /\
    fs w' !! "in.mp4" = Some (Demo.clip [Demo.person_frame; Demo.broken_frame]) /\
    fs w' !! "other.mp4" = Some (Demo.clip []).
Proof.
  intros w.
  assert (Hrun : exists e w',
    demo_video "in.mp4" "out.mp4" (35 # 100) w = (inl e, w'))
    by (eexists _, _; vm_compute; reflexivity).
  destruct Hrun as (e & w' & Hrun).
  destruct (process_video_readable_touches_only_output Demo.predict _
              Demo.initialize_tracker Demo.update_tracks Demo.ffmpeg
              "in.mp4" "out.mp4" (35 # 100) w (inl e) w' eq_refl Hrun)
    as (Hruns & Hdisk).
  exists e, w'. split; [exact Hrun|]. split; [exact Hruns|].
  split; (rewrite Hdisk; [reflexivity|discriminate]).
Defined.

Lemma process_video_deletes_output_without_mp4_witness :
  let w := Demo.video_world "in.avi" (Demo.unreadable_clip [Demo.person_frame]) in
  exists res w',
    demo_video "in.avi" "out.avi" (35 # 100) w = (inr res, w') /\
    fs w' !! "out.avi" = None.
Proof.
  intros w.
  assert (Hrun : exists res w',
    demo_video "in.avi" "out.avi" (35 # 100) w = (inr res, w'))
    by (eexists _, _; vm_compute; reflexivity).
  destruct Hrun as (res & w' & Hrun).
  assert (Hne : "in.avi" <> "out.avi") by discriminate.
  destruct (process_video_deletes_output_without_mp4 Demo.predict _
              Demo.initialize_tracker Demo.update_tracks Demo.ffmpeg
              "in.avi" "out.avi" (35 # 100) w res w' eq_refl eq_refl Hne Hrun)
    as (_ & _ & Hgone).
  exists res, w'. split; [exact Hrun|exact Hgone].
Defined.

Lemma process_camera_handles_witness :
  (exists res w',
     demo_camera 0 "cam.mp4" 5 (35 # 100)
       (Demo.camera_world (Demo.failing_webcam 3)) = (inr res, w') /\
     open_caps w' = [] /\ open_writers w' = []) /\
  (exists e w',
     demo_camera 0 "cam.mp4" 5 (35 # 100)
       (Demo.camera_world (mkCamera (fun _ => Some Demo.broken_frame) 640 480 30))
     = (inl e, w') /\
     open_caps w' = [Device 0] /\ open_writers w' = ["cam.mp4"]).
Proof.
  split.
  - set (w := Demo.camera_world (Demo.failing_webcam 3)).
    assert (Hrun : exists res w',
      demo_camera 0 "cam.mp4" 5 (35 # 100) w = (inr res, w'))
      by (eexists _, _; vm_compute; reflexivity).
    destruct Hrun as (res & w' & Hrun).
    assert (Hcam : cameras w !! 0 = Some (Demo.failing_webcam 3)) by reflexivity.
    pose proof (process_camera_handles Demo.predict _ Demo.initialize_tracker
                  Demo.update_tracks 0 "cam.mp4" 5 (35 # 100) w _ (inr res) w'
                  Hcam Hrun) as [Hc Hw].
    exists res, w'. split; [exact Hrun|]. split; [exact Hc|exact Hw].
  - set (cam := mkCamera (fun _ => Some Demo.broken_frame) 640 480 30).
    set (w := Demo.camera_world cam).
    assert (Hrun : exists e w',
      demo_camera 0 "cam.mp4" 5 (35 # 100) w = (inl e, w'))
      by (eexists _, _; vm_compute; reflexivity).
    destruct Hrun as (e & w' & Hrun).
    assert (Hcam : cameras w !! 0 = Some cam) by reflexivity.
    pose proof (process_camera_handles Demo.predict _ Demo.initialize_tracker
                  Demo.update_tracks 0 "cam.mp4" 5 (35 # 100) w _ (inl e) w'
                  Hcam Hrun) as [Hc Hw].
    exists e, w'. split; [exact Hrun|]. split; [exact Hc|exact Hw].
Defined.




Lemma track_video_rejects_witness :
  exists d,
    demo_track_video "20240101_120000"
      (mkUpload (Some "notes.txt") (Demo.clip [Demo.person_frame])) (35 # 100)
      (Demo.world ∅ ∅)
    = (inl (mkHTTP 400 d), Demo.world ∅ ∅).
Proof.
  destruct (track_video_rejects Demo.predict _ Demo.initialize_tracker
              Demo.update_tracks Demo.ffmpeg DemoApi.lower "20240101_120000"
              (mkUpload (Some "notes.txt") (Demo.clip [Demo.person_frame]))
              (35 # 100) (Demo.world ∅ ∅)) as (d & Hrun & _).
  { right. right. exists "notes.txt". split; [reflexivity|].
    change (".txt" ∉ allowed_extensions). unfold allowed_extensions.
    rewrite !not_elem_of_cons.
    repeat split; [discriminate..|apply not_elem_of_nil]. }
  exists d. exact Hrun.
Defined.


(** An upload that needs the codec repair and whose second frame makes
    the detector raise: the answer is 500, the input and the output are
    gone, and the repaired copy is still in [outputs]. *)
Lemma track_video_failure_witness :
  exists e w',
    demo_track_video "20240101_120000"
      (mkUpload (Some "clip.avi")
         (Demo.unreadable_clip [Demo.person_frame; Demo.broken_frame]))
      (35 # 100) (Demo.world ∅ ∅) = (inl (mkHTTP 500 (ProcessingError e)), w') /\
    fs w' !! "uploads/input_20240101_120000.avi" = None /\
    fs w' !! "outputs/output_20240101_120000.mp4" = None /\
    fs w' !! "outputs/output_20240101_120000_fixed.mp4" <> None.
Proof.
  set (upload := mkUpload (Some "clip.avi")
                   (Demo.unreadable_clip [Demo.person_frame; Demo.broken_frame])).
  assert (Hrun : exists h w',
    demo_track_video "20240101_120000" upload (35 # 100) (Demo.world ∅ ∅)
    = (inl h, w')) by (eexists _, _; vm_compute; reflexivity).
  destruct Hrun as (h & w' & Hrun).
  destruct (track_video_failure Demo.predict _ Demo.initialize_tracker
              Demo.update_tracks Demo.ffmpeg DemoApi.lower "20240101_120000"
              upload (35 # 100) (Demo.world ∅ ∅) h w' Hrun)
    as [[H400 _]|(name & e & w1 & Hname & Hpv & -> & Hin & Hout & Hrest & _)].
  { vm_compute in Hrun. injection Hrun as <- _. discriminate H400. }
  injection Hname as <-. exists e, w'.
  split; [exact Hrun|]. split; [exact Hin|]. split; [exact Hout|].
  rewrite Hrest by discriminate.
  vm_compute in Hpv. injection Hpv as _ <-. vm_compute. discriminate.
Defined.




Lemma process_camera_counts_confirmed_witness :
  exists res w',
    demo_camera 0 "cam.mp4" 5 (35 # 100) (Demo.camera_world (Demo.failing_webcam 4))
      = (inr res, w') /\
    total_frames res = 4 /\
    total_unique_people res = 1%nat.
Proof.
  set (w := Demo.camera_world (Demo.failing_webcam 4)).
  assert (Hrun : exists res w',
    demo_camera 0 "cam.mp4" 5 (35 # 100) w = (inr res, w'))
    by (eexists _, _; vm_compute; reflexivity).
  destruct Hrun as (res & w' & Hrun).
  assert (Hcam : cameras w !! 0 = Some (Demo.failing_webcam 4)) by reflexivity.
  destruct (process_camera_counts_confirmed Demo.predict _ Demo.initialize_tracker
              Demo.update_tracks 0 "cam.mp4" 5 (35 # 100) w _ res w' Hcam Hrun)
    as (_ & _ & Hcount).
  exists res, w'. split; [exact Hrun|].
  vm_compute in Hrun. injection Hrun as <- _. split; reflexivity.
Defined.

Lemma process_video_repair_path_witness :
  let w := Demo.video_world "in.avi"
             (Demo.unreadable_clip [Demo.person_frame; Demo.broken_frame]) in
  exists r w',
    demo_video "in.avi" "outputs/out.mp4" (35 # 100) w = (r, w') /\
    ffmpeg_runs w' = [("in.avi", "outputs/out_fixed.mp4")].
Proof.
  intros w.
  destruct (demo_video "in.avi" "outputs/out.mp4" (35 # 100) w) as [r w'] eqn:Hrun.
  exists r, w'. split; [reflexivity|].
  exact (process_video_repair_path Demo.predict _ Demo.initialize_tracker
           Demo.update_tracks Demo.ffmpeg "in.avi" "outputs/out" (35 # 100) w r w'
           eq_refl eq_refl Hrun).
Defined.
